(** * Parameters: a shallow embedding of [parameters/parameters.py]

    The [Parameters] class keeps a namespace of physical parameters, each
    either a dimensioned value or a function of other parameters, converts
    between unit-aware quantities and scaled numbers, and propagates
    overrides through invertible functions.

    Conventions of the embedding:
    - Python numbers are exact rationals ([Qc]): neither the rounding of
      floats nor the floor division of two Python 2 integers is modelled.
    - Python dictionaries iterated by the code ([kwargs], the results of
      [__eval_function]) are association lists with unique keys; the order
      in which Python 2 iterates a dictionary is fixed but arbitrary, and is
      taken here to be the order in which the keys were inserted.  The tables
      of the instance that are only looked up by key are [gmap]s.
    - A [Quantity] is a value: the sharing of one [Quantity] object between
      two parameters, which [__spec] would then both relabel, is not modelled.
    - Every method works on the instance state [engine] and may raise: a
      method is a function [engine -> outcome A * engine], so that the state a
      raising method leaves behind stays visible.
    - Python's call stack is a fuel argument; running out of it is the
      [RuntimeError] of the interpreter's recursion limit. *)

From Stdlib Require Import QArith Qcanon ZArith String List Ascii Lia.
From stdpp Require Import gmap strings list pretty.

Set Warnings "-register-all,-clear-no-such-hyp".
Open Scope Qc_scope.
Open Scope string_scope.

(** ** Units and quantities (external collaborators) *)

(** Modelled from the spec: the [Units] value type of the missing module
    [units]: a unit has a name, a scale relative to the basis of its
    dimension and a dimension vector. *)
Record Unit := mkUnit {
  uname : string;
  urel : Qc;
  udims : gmap string Z
}.

#[global] Instance Unit_eq_dec : EqDecision Unit.
Proof. solve_decision. Defined.

(** Modelled from the spec: the unit [None] of [Quantity(1,None)], the
    dimensionless unit of the missing module [quantities]. *)
Definition unit_none : Unit := mkUnit "" 1 ∅.

Definition Qc_powZ (x : Qc) (p : Z) : Qc :=
  match p with
  | Z0 => 1
  | Zpos n => x ^ Pos.to_nat n
  | Zneg n => / (x ^ Pos.to_nat n)
  end.

(** Modelled from the spec: multiplication and exponentiation of the
    missing [Units] type, "preserving dimension arithmetic". *)
Definition unit_mul (a b : Unit) : Unit :=
  mkUnit (uname a ++ "*" ++ uname b) (urel a * urel b)
         (union_with (fun x y => Some (x + y)%Z) (udims a) (udims b)).

Definition unit_pow (a : Unit) (p : Z) : Unit :=
  mkUnit ("(" ++ uname a ++ ")^" ++ pretty p) (Qc_powZ (urel a) p)
         ((fun x => (x * p)%Z) <$> udims a).

(** Modelled from the spec: [Unit.scale(otherUnit)] of the missing [Units]
    type, the factor that converts a magnitude in [a] to one in [b]. *)
Definition unit_scale_to (a b : Unit) : Qc := urel a / urel b.

(** Modelled from the spec: the [Quantity] value type of the missing module
    [quantities], a magnitude paired with a unit, with its product and power. *)
Record Quantity := mkQuantity { qvalue : Qc; qunits : Unit }.

#[global] Instance Quantity_eq_dec : EqDecision Quantity.
Proof. solve_decision. Defined.

Definition quantity_mul (a b : Quantity) : Quantity :=
  mkQuantity (qvalue a * qvalue b) (unit_mul (qunits a) (qunits b)).

Definition quantity_pow (a : Quantity) (p : Z) : Quantity :=
  mkQuantity (Qc_powZ (qvalue a) p) (unit_pow (qunits a) p).

(** Modelled from the spec: the unit dispenser ([SIDispenser] of the missing
    module [definitions]): [get], [dimensions] and [basis()]. *)
Record Dispenser := mkDispenser {
  units_get : string -> option Unit;
  units_dimensions : list string;
  units_basis : gmap string Unit
}.

(** ** Python values *)

(** First-order data: what a parameter function receives and returns. *)
Inductive value :=
| VNum (x : Qc)
| VStr (s : string)
| VUnit (u : Unit)
| VQuantity (q : Quantity)
| VSeq (l : list value).

Inductive msg :=
| Overspecified (key : string)
| NonInvertible (param : string)
| RecursionWith (arg : string)
| NoInterpretation (arg : string)
| OnlyScaled
| InvalidParameters (bad : list string)
| NoCoercion
| BadLength
| UnknownUnit (name : string)
| BadQuantity
| NotSymbolic
| CannotSetScaling
| CouldNotAdd (param : string) (inner : msg)
| Other.

Inductive exn :=
| ValueError (m : msg)
| KeyError (m : msg)
| IndexError
| TypeError
| AttributeError
| ZeroDivisionError
| RuntimeError.

Inductive outcome (A : Type) :=
| Ok (a : A)
| Raise (e : exn).
Arguments Ok {A} a.
Arguments Raise {A} e.

(** A function object: [inspect.getargspec(f)[0]] and the body.  Bodies are
    first-order: they take and return data. *)
Record pyfun := mkFun {
  fargs : list string;
  fbody : list value -> outcome value
}.

Inductive pyval :=
| Val (v : value)
| Fun (f : pyfun)
| FunUnit (f : pyfun) (u : value).

(** A [dict] iterated by the code: unique keys, in insertion order. *)
Definition dict (A : Type) := list (string * A).

Fixpoint dict_get {A} (k : string) (d : dict A) : option A :=
  match d with
  | [] => None
  | (k', v) :: d' => if String.eqb k k' then Some v else dict_get k d'
  end.

Definition dict_in {A} (k : string) (d : dict A) : bool :=
  match dict_get k d with Some _ => true | None => false end.

Fixpoint dict_set {A} (k : string) (v : A) (d : dict A) : dict A :=
  match d with
  | [] => [(k, v)]
  | (k', v') :: d' =>
      if String.eqb k k' then (k, v) :: d' else (k', v') :: dict_set k v d'
  end.

Fixpoint dict_del {A} (k : string) (d : dict A) : dict A :=
  match d with
  | [] => []
  | (k', v') :: d' =>
      if String.eqb k k' then d' else (k', v') :: dict_del k d'
  end.

Definition dict_update {A} (d new : dict A) : dict A :=
  fold_left (fun acc kv => dict_set (fst kv) (snd kv) acc) new d.

Definition dict_keys {A} (d : dict A) : list string := map fst d.

Definition mem (k : string) (l : list string) : bool :=
  existsb (String.eqb k) l.

(** ** The instance state *)

Inductive stored :=
| SQuantity (q : Quantity)
| SFun (f : pyfun).

Record engine := mkEngine {
  parameters_spec : gmap string Unit;
  parameters : gmap string stored;
  scalings : gmap string Quantity;
  unit_scalings : list (gmap string Z * Qc);
  units : Dispenser;
  default_scaled : bool;
  scaling_cache : list (Unit * Qc)
}.

(** [Parameters(dispenser,default_scaled)], without the constants. *)
Definition init (dispenser : Dispenser) (scaled : bool) : engine :=
  mkEngine ∅ ∅ ∅ [] dispenser scaled [].

Definition set_parameters_spec (m : gmap string Unit) (e : engine) : engine :=
  mkEngine m (parameters e) (scalings e) (unit_scalings e) (units e)
           (default_scaled e) (scaling_cache e).
Definition set_parameters (m : gmap string stored) (e : engine) : engine :=
  mkEngine (parameters_spec e) m (scalings e) (unit_scalings e) (units e)
           (default_scaled e) (scaling_cache e).
Definition set_scalings (m : gmap string Quantity) (e : engine) : engine :=
  mkEngine (parameters_spec e) (parameters e) m (unit_scalings e) (units e)
           (default_scaled e) (scaling_cache e).
Definition set_unit_scalings (l : list (gmap string Z * Qc)) (e : engine) : engine :=
  mkEngine (parameters_spec e) (parameters e) (scalings e) l (units e)
           (default_scaled e) (scaling_cache e).
Definition set_scaling_cache (c : list (Unit * Qc)) (e : engine) : engine :=
  mkEngine (parameters_spec e) (parameters e) (scalings e) (unit_scalings e)
           (units e) (default_scaled e) c.

(** ** Methods as state transformers that may raise *)

Definition M (A : Type) := engine -> outcome A * engine.

Definition ret {A} (a : A) : M A := fun e => (Ok a, e).
Definition raise {A} (x : exn) : M A := fun e => (Raise x, e).
Definition bind {A B} (c : M A) (k : A -> M B) : M B :=
  fun e => match c e with
           | (Ok a, e') => k a e'
           | (Raise x, e') => (Raise x, e')
           end.
Definition self : M engine := fun e => (Ok e, e).
Definition modify (f : engine -> engine) : M unit := fun e => (Ok tt, f e).
Definition lift {A} (o : outcome A) : M A := fun e => (o, e).

(** [try: c except ValueError, x: h x] *)
Definition except_ValueError {A} (c : M A) (h : msg -> M A) : M A :=
  fun e => match c e with
           | (Raise (ValueError m), e') => h m e'
           | r => r
           end.

Notation "x <- c ;; k" := (bind c (fun x => k))
  (at level 100, c at next level, right associativity).
Notation "c ;;; k" := (bind c (fun _ => k))
  (at level 100, right associativity).

Fixpoint mapM {A B} (f : A -> M B) (l : list A) : M (list B) :=
  match l with
  | [] => ret []
  | a :: l' => b <- f a ;; bs <- mapM f l' ;; ret (b :: bs)
  end.

Fixpoint forM_ {A} (l : list A) (f : A -> M unit) : M unit :=
  match l with
  | [] => ret tt
  | a :: l' => f a ;;; forM_ l' f
  end.

Fixpoint foldM {A S} (f : S -> A -> M S) (s : S) (l : list A) : M S :=
  match l with
  | [] => ret s
  | a :: l' => s' <- f s a ;; foldM f s' l'
  end.

(** Python's [/] on numbers: dividing by zero raises. *)
Definition py_div (a b : Qc) : M Qc :=
  if decide (b = 0) then raise ZeroDivisionError else ret (a / b).

(** Modelled from the spec: [Quantity ** power] of the missing module
    [quantities]; a zero magnitude to a negative power raises. *)
Definition quantity_power (a : Quantity) (p : Z) : M Quantity :=
  if decide (qvalue a = 0 /\ (p < 0)%Z) then raise ZeroDivisionError
  else ret (quantity_pow a p).

(** Modelled from the spec: the constructor [Quantity(magnitude,unit)] of the
    missing module [quantities], from a magnitude and a unit or unit string. *)
Definition quantity_new (magnitude unit : value) : M Quantity :=
  e <- self ;;
  match magnitude, unit with
  | VNum x, VStr s =>
      match units_get (units e) s with
      | Some u => ret (mkQuantity x u)
      | None => raise (ValueError (UnknownUnit s))
      end
  | VNum x, VUnit u => ret (mkQuantity x u)
  | _, _ => raise (ValueError BadQuantity)
  end.

(** ** Scaling engine *)

(** [__get_unit] *)
Definition get_unit (unit : value) : M Unit :=
  e <- self ;;
  match unit with
  | VStr s =>
      match units_get (units e) s with
      | Some u => ret u
      | None => raise (ValueError (UnknownUnit s))
      end
  | VUnit u => ret u
  | _ => raise (ValueError NoCoercion)
  end.

(** [__unit_scale]: the first entry whose dimension vector equals the
    unit's, else [1.0]. *)
Fixpoint unit_scale_in (l : list (gmap string Z * Qc)) (u : Unit) : Qc :=
  match l with
  | [] => 1
  | (d, f) :: l' => if decide (d = udims u) then f else unit_scale_in l' u
  end.

Definition unit_scale (u : Unit) : M Qc :=
  e <- self ;; ret (unit_scale_in (unit_scalings e) u).

(** [__basis_scale]: the default [Quantity(1,basis()[dim])] is built before
    [dict.get] is called, so a dimension missing from [basis()] raises even
    when a scaling is set for it. *)
Definition basis_scale_step (acc : Quantity) (dp : string * Z) : M Quantity :=
  e <- self ;;
  match units_basis (units e) !! dp.1 with
  | None => raise (KeyError Other)
  | Some b =>
      let s := match scalings e !! dp.1 with
               | Some s => s
               | None => mkQuantity 1 b
               end in
      f <- quantity_power s dp.2 ;;
      ret (quantity_mul acc f)
  end.

Definition basis_scale (unit : value) : M Quantity :=
  u <- get_unit unit ;;
  foldM basis_scale_step (mkQuantity 1 unit_none) (map_to_list (udims u)).

Fixpoint cache_get (u : Unit) (c : list (Unit * Qc)) : option Qc :=
  match c with
  | [] => None
  | (u', s) :: c' => if decide (u = u') then Some s else cache_get u c'
  end.

(** What [__unit_scaling] computes when the unit is not in the cache. *)
Definition unit_scaling_direct (u : Unit) : M Qc :=
  scale <- basis_scale (VUnit u) ;;
  us <- unit_scale u ;;
  py_div (qvalue scale * unit_scale_to (qunits scale) u) us.

(** [__unit_scaling] *)
Definition unit_scaling (u : Unit) : M Qc :=
  e <- self ;;
  match cache_get u (scaling_cache e) with
  | Some s => ret s
  | None =>
      scaling <- unit_scaling_direct u ;;
      modify (fun e => set_scaling_cache ((u, scaling) :: scaling_cache e) e) ;;;
      ret scaling
  end.

(** [__get_quantity] *)
Definition get_quantity (v : pyval) (param : option string)
    (unit : option value) (scaled : bool) : M pyval :=
  q <- match v with
       | Val (VSeq l) =>
           match l with
           | [m; u] => q <- quantity_new m u ;; ret (Val (VQuantity q))
           | _ => raise (ValueError BadLength)
           end
       | FunUnit _ _ => raise (ValueError BadQuantity)
       | Val (VQuantity q) => ret (Val (VQuantity q))
       | Fun f => ret (Fun f)
       | Val other =>
           e <- self ;;
           u <- match unit, param with
                | None, None => get_unit (VStr "")
                | Some un, _ => get_unit un
                | None, Some p =>
                    match parameters_spec e !! p with
                    | None => get_unit (VStr "")
                    | Some s => get_unit (VUnit s)
                    end
                end ;;
           s <- unit_scaling u ;;
           match other with
           | VNum x => ret (Val (VQuantity (mkQuantity (x * s) u)))
           | _ => raise TypeError
           end
       end ;;
  if negb scaled then ret q
  else match q with
       | Val (VQuantity q) =>
           s <- unit_scaling (qunits q) ;; x <- py_div (qvalue q) s ;;
           ret (Val (VNum x))
       | _ => raise AttributeError
       end.

(** ** Parameter retrieval *)

(** The expression capability of [sympy] used by the class. *)
Record Sympy := mkSympy {
  (** [sympy.S(arg).free_symbols] as names; [None] when [arg] does not parse *)
  sympy_free_symbols : string -> option (list string);
  (** [str(sympy.S(arg))] *)
  sympy_str : string -> string;
  (** [arg.subs(params).evalf()] *)
  sympy_evalf : string -> dict value -> outcome value;
  (** [sympy.utilities.lambdify] over the free symbols, as in
      [__sympy_to_function]; [None] when that raises *)
  sympy_lambdify : string -> option pyfun
}.

(** [__get_pam_name] *)
Definition get_pam_name (param : string) : string :=
  match param with
  | String "_" rest => rest
  | _ => param
  end.

Definition is_prefixed (arg : string) : bool :=
  match arg with
  | String "_" _ => true
  | _ => false
  end.

(** A method with the named arguments [self] and [a] that is handed a
    dictionary as keyword arguments raises [TypeError] when the dictionary
    has a key [self] or [a]. *)
Definition call_kw {A B} (names : list string) (kwargs : dict B) (body : M A) : M A :=
  if existsb (fun n => dict_in n kwargs) names then raise TypeError else body.

(** Calling [f] on the list [arguments]: bodies are first-order, a function
    object among the arguments raises. *)
Fixpoint as_data (l : list pyval) : option (list value) :=
  match l with
  | [] => Some []
  | Val v :: l' => match as_data l' with Some vs => Some (v :: vs) | None => None end
  | _ :: _ => None
  end.

Definition call (f : pyfun) (arguments : list pyval) : M value :=
  match as_data arguments with
  | Some vs => lift (fbody f vs)
  | None => raise TypeError
  end.

(** [r[i]] *)
Definition getitem (r : list value) (i : nat) : M value :=
  match nth_error r i with
  | Some v => ret v
  | None => raise IndexError
  end.

(** [if not isinstance(r,(tuple,list)): r = [r]] *)
Definition as_seq (r : value) : list value :=
  match r with
  | VSeq l => l
  | _ => [r]
  end.

Fixpoint enumerate_from {A} (i : nat) (l : list A) : list (nat * A) :=
  match l with
  | [] => []
  | a :: l' => (i, a) :: enumerate_from (S i) l'
  end.

(** [__get_function] *)
Definition get_function (sympy : Sympy) (expr : pyfun + string) : M pyfun :=
  match expr with
  | inl f => ret f
  | inr s =>
      match sympy_lambdify sympy s with
      | Some f => ret f
      | None => raise (ValueError NotSymbolic)
      end
  end.

Section Retrieval.

Variable sympy : Sympy.

(** The comparison [a != b] of two override values; on quantities it is the
    one of the missing module [quantities]. *)
Variable py_ne : pyval -> pyval -> bool.

(** The inverse branch of [__eval_function]: each argument other than the
    parameter takes [r[i]], [i] its index among all the arguments. *)
Definition inverse_step (param : string) (r : list value)
    (inverse : dict pyval) (ia : nat * string) : M (dict pyval) :=
  let pam := get_pam_name ia.2 in
  if String.eqb pam param then ret inverse
  else
    x <- getitem r ia.1 ;;
    q <- get_quantity (Val x) (Some pam) None false ;;
    ret (dict_set ia.2 q inverse).

(** [__get_param] on a name, [__eval_function] and [__eval] on a string, on
    what is left of the call stack. *)
Fixpoint get_param (fuel : nat) (arg : string) (kwargs : dict pyval) : M pyval :=
  match fuel with
  | O => raise RuntimeError
  | S n =>
      call_kw ["self"; "arg"] kwargs (
        e <- self ;;
        let name := get_pam_name arg in
        if negb (dict_in name kwargs) && negb (bool_decide (is_Some (parameters e !! name)))
        then eval_str n arg kwargs
        else
          let scaled := if is_prefixed arg then negb (default_scaled e)
                        else default_scaled e in
          match dict_get name kwargs with
          | Some v => get_quantity v (Some name) None scaled
          | None =>
              match parameters e !! name with
              | Some (SFun _) =>
                  vals <- eval_function n name kwargs ;;
                  match dict_get name vals with
                  | Some v => get_quantity v (Some name) None scaled
                  | None => raise (KeyError Other)
                  end
              | Some (SQuantity q) =>
                  get_quantity (Val (VQuantity q)) (Some name) None scaled
              | None => raise (KeyError Other)
              end
          end)
  end

with eval_function (fuel : nat) (param : string) (kwargs : dict pyval)
    : M (dict pyval) :=
  match fuel with
  | O => raise RuntimeError
  | S n =>
      call_kw ["self"; "param"] kwargs (
        e <- self ;;
        match parameters e !! param with
        | Some (SFun f) =>
            if dict_in param kwargs && negb (mem param (fargs f))
               && negb (mem ("_" ++ param) (fargs f))
            then raise (ValueError (NonInvertible param))
            else
              arguments <-
                mapM (fun arg => get_param n arg kwargs)
                     (filter (fun arg => ¬ (arg = param ∧ dict_in arg kwargs = false))
                             (fargs f)) ;;
              r <- call f arguments ;;
              let r := as_seq r in
              if negb (dict_in param kwargs) then
                x <- getitem r 0 ;;
                q <- get_quantity (Val x) (Some param) None false ;;
                ret [(param, q)]
              else
                foldM (inverse_step param r) [] (enumerate_from 0 (fargs f))
        | _ => raise TypeError
        end)
  end

with eval_str (fuel : nat) (arg : string) (kwargs : dict pyval) : M pyval :=
  match fuel with
  | O => raise RuntimeError
  | S n =>
      call_kw ["self"; "arg"] kwargs (
        match sympy_free_symbols sympy arg with
        | None => raise (ValueError NotSymbolic)
        | Some fs =>
            if bool_decide (fs = [sympy_str sympy arg]) then raise (ValueError (NoInterpretation arg))
            else
              fun e =>
                match
                  (params <-
                     foldM (fun params sym =>
                              param <- get_param n sym kwargs ;;
                              match param with
                              | Val (VQuantity _) => raise (ValueError OnlyScaled)
                              | _ =>
                                  v <- get_param n sym kwargs ;;
                                  match v with
                                  | Val d => ret (dict_set sym d params)
                                  | _ => raise TypeError
                                  end
                              end) [] fs ;;
                   v <- lift (sympy_evalf sympy arg params) ;;
                   ret (Val v)) e
                with
                | (Raise (ValueError m), e') => (Raise (ValueError m), e')
                | (Raise (KeyError m), e') => (Raise (KeyError m), e')
                | (Raise _, e') => (Raise RuntimeError, e')
                | r => r
                end
        end)
  end.

(** [__get_param] and [__eval] on a function object, with [__get_params]. *)
Definition eval_fun (fuel : nat) (f : pyfun) (kwargs : dict pyval) : M pyval :=
  match fuel with
  | O => raise RuntimeError
  | S n =>
      call_kw ["self"; "arg"] kwargs (
        params <-
          match fargs f with
          | [a] => v <- get_param n a kwargs ;; ret [(get_pam_name a, v)]
          | args =>
              foldM (fun rv a => v <- get_param n a kwargs ;;
                                 ret (dict_set (get_pam_name a) v rv)) [] args
          end ;;
        arguments <-
          mapM (fun x => match dict_get (get_pam_name x) params with
                         | Some v => ret v
                         | None => raise (KeyError Other)
                         end) (fargs f) ;;
        v <- call f arguments ;;
        ret (Val v))
  end.

(** [__get_params] on names: one name gives its value, several give a
    dictionary keyed by the names without their prefix. *)
Definition get_params (fuel : nat) (args : list string) (kwargs : dict pyval)
    : M (pyval + dict pyval) :=
  call_kw ["self"] kwargs (
    match args with
    | [a] => v <- get_param fuel a kwargs ;; ret (inl v)
    | _ =>
        rv <- foldM (fun rv a => v <- get_param fuel a kwargs ;;
                                 ret (dict_set (get_pam_name a) v rv)) [] args ;;
        ret (inr rv)
    end).

(** ** Override propagation *)

(** First loop of [__process_override]: an override that is a string or a
    function is evaluated against the other overrides and replaced. *)
Definition normalize_step (fuel : nat) (restrict : list string)
    (kwargs : dict pyval) (item : string * pyval) : M (dict pyval) :=
  if mem item.1 restrict then
    match item.2 with
    | Val (VStr s) =>
        f <- get_function sympy (inr s) ;;
        v <- eval_fun fuel f (dict_del item.1 kwargs) ;;
        ret (dict_set item.1 v kwargs)
    | Fun f =>
        v <- eval_fun fuel f (dict_del item.1 kwargs) ;;
        ret (dict_set item.1 v kwargs)
    | _ => ret kwargs
    end
  else ret kwargs.

(** The test of the inner loop: [key in kwargs and vals[key] != kwargs[key]
    or key in new and vals[key] != new[key]]. *)
Definition conflict (kwargs new : dict pyval) (kv : string * pyval) : bool :=
  match dict_get kv.1 kwargs with
  | Some w => py_ne kv.2 w
  | None => false
  end
  || match dict_get kv.1 new with
     | Some w => py_ne kv.2 w
     | None => false
     end.

Definition reconcile (kwargs new vals : dict pyval) : M unit :=
  forM_ vals (fun kv =>
    if conflict kwargs new kv then raise (ValueError (Overspecified kv.1))
    else ret tt).

(** Second loop of [__process_override]: an override of a parameter stored
    as a function is inverted and what it gives is collected in [new]. *)
Definition ratify_step (fuel : nat) (restrict : list string)
    (kwargs new : dict pyval) (item : string * pyval) : M (dict pyval) :=
  if mem item.1 restrict then
    e <- self ;;
    match parameters e !! item.1 with
    | Some (SFun _) =>
        vals <- eval_function fuel item.1 kwargs ;;
        reconcile kwargs new vals ;;;
        ret (dict_update new vals)
    | _ => ret new
    end
  else ret new.

(** [__process_override]; the dictionary it updates in place is returned. *)
Fixpoint process_override (fuel : nat) (kwargs : dict pyval)
    (restrict : option (list string)) : M (dict pyval) :=
  match fuel with
  | O => raise RuntimeError
  | S n =>
      let restrict := match restrict with
                      | None => dict_keys kwargs
                      | Some r => r
                      end in
      match restrict with
      | [] => ret kwargs
      | _ =>
          kwargs1 <- foldM (normalize_step n restrict) kwargs kwargs ;;
          new <- foldM (ratify_step n restrict kwargs1) [] kwargs1 ;;
          process_override n (dict_update kwargs1 new) (Some (dict_keys new))
      end
  end.

(** [__get] *)
Definition get (fuel : nat) (args : list string) (kwargs : dict pyval)
    : M (pyval + dict pyval) :=
  call_kw ["self"] kwargs (
    kwargs' <- process_override fuel kwargs None ;;
    get_params fuel args kwargs').

End Retrieval.

(** ** Setting parameters *)

Definition is_letter_ (c : ascii) : bool :=
  let n := nat_of_ascii c in
  (n =? 95)%nat || ((65 <=? n)%nat && (n <=? 90)%nat)
  || ((97 <=? n)%nat && (n <=? 122)%nat).

Definition is_word (c : ascii) : bool :=
  let n := nat_of_ascii c in
  is_letter_ c || ((48 <=? n)%nat && (n <=? 57)%nat).

(** The tail of the pattern: word characters up to the end of the string,
    where [$] also matches before one final newline. *)
Fixpoint is_word_tail (s : string) : bool :=
  match s with
  | EmptyString => true
  | String c rest =>
      if is_word c then is_word_tail rest
      else (nat_of_ascii c =? 10)%nat && bool_decide (rest = EmptyString)
  end.

(** [__is_valid_param]: [re.match] of [^[_A-Za-z][_a-zA-Z0-9]*$]. *)
Definition is_valid_param (param : string) : bool :=
  match param with
  | EmptyString => false
  | String c rest => is_letter_ c && is_word_tail rest
  end.

(** [__check_valid_params] *)
Definition check_valid_params (params : list string) : M unit :=
  match filter (fun p => is_valid_param p = false) params with
  | [] => ret tt
  | bad => raise (KeyError (InvalidParameters bad))
  end.

(** [__spec] *)
Definition spec_step (item : string * value) : M unit :=
  u <- get_unit item.2 ;;
  modify (fun e => set_parameters_spec (<[item.1 := u]> (parameters_spec e)) e) ;;;
  modify (fun e =>
    match parameters e !! item.1 with
    | Some (SQuantity q) =>
        set_parameters (<[item.1 := SQuantity (mkQuantity (qvalue q) u)]> (parameters e)) e
    | _ => e
    end).

Definition spec (kwargs : dict value) : M unit :=
  call_kw ["self"] kwargs (forM_ kwargs spec_step).

(** [__check_function]: the test of the arguments against [forbidden], and
    the descent into an argument that is held by a function. *)
Definition check_forbidden (args : list string) (forbidden : option (list string))
    : M (list string) :=
  match forbidden with
  | None => ret []
  | Some fb =>
      match find (fun arg => mem arg args) fb with
      | Some arg => raise (ValueError (RecursionWith arg))
      | None => ret fb
      end
  end.

Definition check_arg (check : string -> pyfun -> option (list string) -> M pyfun)
    (forbidden : list string) (arg : string) : M unit :=
  e <- self ;;
  match parameters e !! arg with
  | Some (SFun g) => check arg g (Some forbidden) ;;; ret tt
  | _ => ret tt
  end.

Fixpoint check_function (fuel : nat) (param : string) (f : pyfun)
    (forbidden : option (list string)) : M pyfun :=
  match fuel with
  | O => raise RuntimeError
  | S n =>
      let args := filter (fun a => a ≠ param) (fargs f) in
      forbidden <- check_forbidden args forbidden ;;
      let forbidden := (forbidden ++ [param])%list in
      forM_ args (check_arg (check_function n) forbidden) ;;;
      ret f
  end.

(** [__remove] *)
Definition remove (param : string) : M unit :=
  e <- self ;;
  (if bool_decide (is_Some (parameters e !! param))
   then modify (fun e => set_parameters (delete param (parameters e)) e)
   else ret tt) ;;;
  e <- self ;;
  if bool_decide (is_Some (parameters_spec e !! param))
  then modify (fun e => set_parameters_spec (delete param (parameters_spec e)) e)
  else ret tt.

(** [__sub__] *)
Definition sub (other : value) : M unit :=
  match other with
  | VStr s => remove s
  | _ => raise (ValueError Other)
  end.

(** [__and__] *)
Definition and_ (other : dict value) : M unit := spec other.

Section Update.

Variable sympy : Sympy.
Variable py_ne : pyval -> pyval -> bool.

(** The two function branches of [__set]: the function is checked and
    stored, then the unit is looked up and declared. *)
Definition install (fuel : nat) (param : string) (expr : pyfun + string)
    (the_unit : M Unit) : M unit :=
  f <- get_function sympy expr ;;
  g <- check_function fuel param f None ;;
  modify (fun e => set_parameters (<[param := SFun g]> (parameters e)) e) ;;;
  u <- the_unit ;;
  spec [(param, VUnit u)].

(** The body of the loop of [__set], inside its [try]. *)
Definition set_one (fuel : nat) (param : string) (val : pyval) : M unit :=
  match val with
  | Fun f => install fuel param (inl f) (get_unit (VStr ""))
  | Val (VStr s) => install fuel param (inr s) (get_unit (VStr ""))
  | FunUnit f u => install fuel param (inl f) (get_unit u)
  | Val (VSeq []) => raise IndexError
  | Val (VSeq (VStr s :: rest)) =>
      install fuel param (inr s) (u <- getitem rest 0 ;; get_unit u)
  | _ =>
      q <- get_quantity val (Some param) None false ;;
      match q with
      | Val (VQuantity q) =>
          modify (fun e => set_parameters (<[param := SQuantity q]> (parameters e)) e) ;;;
          spec [(param, VUnit (qunits q))]
      | _ => raise TypeError
      end
  end.

(** [__set] *)
Definition set (fuel : nat) (kwargs : dict pyval) : M unit :=
  call_kw ["self"] kwargs (
    check_valid_params (dict_keys kwargs) ;;;
    forM_ kwargs (fun item =>
      except_ValueError (set_one fuel item.1 item.2)
        (fun m => raise (ValueError (CouldNotAdd item.1 m))))).

(** [__lshift__] *)
Definition lshift (fuel : nat) (other : dict pyval) : M unit := set fuel other.

(** The body of the loop of [__update]: an override of a parameter held by
    a function is not stored. *)
Definition update_step (fuel : nat) (item : string * pyval) : M unit :=
  e <- self ;;
  match parameters e !! item.1 with
  | Some (SFun _) => ret tt
  | _ => set fuel [item]
  end.

(** [__update] *)
Definition update (fuel : nat) (kwargs : dict pyval) : M unit :=
  call_kw ["self"] kwargs (
    check_valid_params (dict_keys kwargs) ;;;
    kwargs' <- process_override sympy py_ne fuel kwargs None ;;
    forM_ kwargs' (update_step fuel)).

End Update.

(** ** Scalings and conversion *)

Inductive scaling_request :=
| Dimensions (kwargs : dict pyval)
| UnitScaling (dims : gmap string Z) (factor : Qc)
| NoScaling.

Definition scaling_step (item : string * pyval) : M unit :=
  e <- self ;;
  if mem item.1 (units_dimensions (units e)) then
    scale <- get_quantity item.2 (Some item.1) None false ;;
    match scale with
    | Val (VQuantity q) =>
        if decide (udims (qunits q) = {[ item.1 := 1%Z ]})
        then modify (fun e => set_scalings (<[item.1 := q]> (scalings e)) e)
        else ret tt
    | _ => raise AttributeError
    end
  else ret tt.

(** [__scaling_set] *)
Definition scaling_set (kwargs : scaling_request) : M unit :=
  modify (set_scaling_cache []) ;;;
  match kwargs with
  | Dimensions d => forM_ d scaling_step
  | UnitScaling dims factor =>
      modify (fun e => set_unit_scalings (unit_scalings e ++ [(dims, factor)]) e)
  | NoScaling => raise (ValueError CannotSetScaling)
  end.

(** [__mul__] *)
Definition mul (other : scaling_request) : M unit := scaling_set other.


(** ** A small dispenser and comparison for running the methods *)

Module Fixture.

Definition constant : Unit := mkUnit "" 1 ∅.
Definition m : Unit := mkUnit "m" 1 {[ "length" := 1%Z ]}.
Definition s : Unit := mkUnit "s" 1 {[ "time" := 1%Z ]}.
Definition ms : Unit := mkUnit "ms" (1 / Qc_of_Z 1000) {[ "time" := 1%Z ]}.
Definition kg : Unit := mkUnit "kg" 1 {[ "mass" := 1%Z ]}.

(** Modelled from the spec: a fragment of the catalog of built-in units of
    the missing module [definitions]. *)
Definition SI : Dispenser :=
  mkDispenser
    (fun name =>
       if String.eqb name "" then Some constant
       else if String.eqb name "m" then Some m
       else if String.eqb name "s" then Some s
       else if String.eqb name "ms" then Some ms
       else if String.eqb name "kg" then Some kg
       else None)
    ["length"; "time"; "mass"]
    (<["length" := m]> (<["time" := s]> (<["mass" := kg]> ∅))).

(** No string is a symbolic expression. *)
Definition no_sympy : Sympy :=
  mkSympy (fun _ => None) (fun s => s) (fun _ _ => Raise (ValueError NotSymbolic))
          (fun _ => None).

Fixpoint value_eqb (a b : value) : bool :=
  match a, b with
  | VNum x, VNum y => bool_decide (x = y)
  | VStr x, VStr y => String.eqb x y
  | VUnit x, VUnit y => bool_decide (x = y)
  | VQuantity x, VQuantity y => bool_decide (x = y)
  | VSeq l, VSeq l' =>
      (fix go (l l' : list value) : bool :=
         match l, l' with
         | [], [] => true
         | x :: l, y :: l' => value_eqb x y && go l l'
         | _, _ => false
         end) l l'
  | _, _ => false
  end.

(** Modelled from the spec: [!=] of the missing module [quantities], as
    inequality of magnitude or unit; a function differs from any data. *)
Definition structural_ne (a b : pyval) : bool :=
  match a, b with
  | Val x, Val y => negb (value_eqb x y)
  | _, _ => true
  end.

Definition num (x : Qc) : pyval := Val (VNum x).
Definition pair (x : Qc) (u : string) : pyval := Val (VSeq [VNum x; VStr u]).
Definition quantity (x : Qc) (u : Unit) : pyval := Val (VQuantity (mkQuantity x u)).

(** The stack depth the methods are run with. *)
Definition depth : nat := 50.

End Fixture.

(** ** Notions used in the statements *)

(** A method that reads the state and leaves it as it was. *)
Definition pure_of {A} (c : M A) : Prop := forall e, (c e).2 = e.

(** The state after [name] has been given the quantity [q]. *)
Definition stored_as (name : string) (q : Quantity) (e : engine) : engine :=
  mkEngine (<[name := qunits q]> (parameters_spec e))
           (<[name := SQuantity q]> (parameters e))
           (scalings e) (unit_scalings e) (units e) (default_scaled e)
           (scaling_cache e).

Definition is_data (v : pyval) : Prop :=
  match v with
  | Val (VStr _) | Fun _ => False
  | _ => True
  end.

(** Everything in the state but the scaling cache. *)
Definition tables (e : engine) :=
  (parameters_spec e, parameters e, scalings e, unit_scalings e, units e,
   default_scaled e).

(** A method that changes at most the scaling cache. *)
Definition keeps_tables {A} (c : M A) : Prop := forall e, tables (c e).2 = tables e.

(** The value and the unit spec of every name but [q] stay as they are, and
    so do the scaling tables. *)
Definition same_but (q : string) (e e' : engine) : Prop :=
  (forall p, p <> q ->
     parameters e' !! p = parameters e !! p
     /\ parameters_spec e' !! p = parameters_spec e !! p)
  /\ (scalings e', unit_scalings e', units e', default_scaled e')
     = (scalings e, unit_scalings e, units e, default_scaled e).

Definition touches_only {A} (q : string) (c : M A) : Prop :=
  forall e, same_but q e (c e).2.

(** The entries of a name and the scaling tables are the same in two states. *)
Definition agree_on (p : string) (e e' : engine) : Prop :=
  parameters e' !! p = parameters e !! p
  /\ parameters_spec e' !! p = parameters_spec e !! p
  /\ (scalings e', unit_scalings e', units e', default_scaled e')
     = (scalings e, unit_scalings e, units e, default_scaled e).

(** The unit that [__get_quantity] gives a bare number for the parameter
    [a]: the declared one, else the dimensionless unit of the dispenser. *)
Definition unit_for (e : engine) (a : string) (u : Unit) : Prop :=
  match parameters_spec e !! a with
  | Some s => u = s
  | None => units_get (units e) "" = Some u
  end.

(** What [__get_quantity] makes of an element returned by a function: a
    quantity is kept, a bare number is taken as a scaled value in the unit
    of the parameter. *)
Definition tagged (e : engine) (a : string) (x : value) (q : pyval) : Prop :=
  match x with
  | VQuantity y => q = Val (VQuantity y)
  | VNum m => exists s u, unit_for e a u /\ q = Val (VQuantity (mkQuantity (m * s) u))
  | _ => exists y, q = Val (VQuantity y)
  end.

(** [isinstance(value, types.FunctionType)] on a stored value. *)
Definition is_function (st : stored) : bool :=
  match st with
  | SFun _ => true
  | SQuantity _ => false
  end.

(** The names the store holds as functions. *)
Definition held_by_function (e : engine) : gset string :=
  dom (filter (fun kv => is_function kv.2 = true) (parameters e)).

(** The basis of the length dimension set to two metres, on a fresh engine. *)
Definition two_metres (um : Unit) : Quantity := mkQuantity 2 um.

Definition scaled_by_two (d : Dispenser) (um : Unit) : engine :=
  mkEngine ∅ ∅ {[ "length" := two_metres um ]} [] d true [].

Section Contradictions.

Variable sympy : Sympy.
Variable py_ne : pyval -> pyval -> bool.




End Contradictions.

(** ** States and functions used as instances *)

Module Cycle.
Import Fixture.

Definition constant_body : list value -> outcome value := fun _ => Ok (VNum 0).

(** [a] as a function of [b], then [b] as a function of [a]. *)
Definition a_of_b : pyfun := mkFun ["b"] constant_body.
Definition b_of_a : pyfun := mkFun ["a"] constant_body.
Definition with_a : engine :=
  (lshift no_sympy depth [("a", Fun a_of_b)] (init SI true)).2.

(** The same two definitions on the unit-aware views. *)
Definition a_of__b : pyfun := mkFun ["_b"] constant_body.
Definition b_of__a : pyfun := mkFun ["_a"] constant_body.
Definition with__a : engine :=
  (lshift no_sympy depth [("a", Fun a_of__b)] (init SI true)).2.
Definition with__a__b : engine :=
  (lshift no_sympy depth [("b", Fun b_of__a)] with__a).2.

End Cycle.

Module StaleCache.
Import Fixture.

(** A unit is declared for a parameter named like a dimension, then the
    basis of that dimension is given as a bare number. *)
Definition declared : engine := (and_ [("length", VStr "m")] (init SI true)).2.
Definition rescaled : engine := (mul (Dimensions [("length", num 2)]) declared).2.

End StaleCache.

Module Diverge.
Import Fixture.

(** [z] as an invertible function of [a]: given [z] it returns [a]. *)
Definition z_of_a : pyfun :=
  mkFun ["a"; "z"] (fun args => match args with
                                | [_; VNum z] => Ok (VSeq [VNum z])
                                | _ => Ok (VNum 0)
                                end).

(** [p << {'a': lambda _b: 0}; p << {'b': lambda _a: 0};
     p << {'z': lambda a, z=None: ...}] *)
Definition cyclic : engine :=
  (lshift no_sympy depth [("z", Fun z_of_a)] Cycle.with__a__b).2.

Definition z_is_one : dict pyval := [("z", num 1)].

End Diverge.

Module Chain.
Import Fixture.

(** [y] from [x], invertible: [lambda x, y=None: 2*x if y is None else y/2] *)
Definition y_of_x : pyfun :=
  mkFun ["x"; "y"] (fun args => match args with
                                | [VNum x] => Ok (VNum (2 * x))
                                | [VNum x; VNum y] => Ok (VNum (y / 2))
                                | _ => Raise TypeError
                                end).

(** [z] from [x] and [y], invertible:
    [lambda x, y, z=None: x+y if z is None else (1,4)] *)
Definition z_of_x_y : pyfun :=
  mkFun ["x"; "y"; "z"]
        (fun args => match args with
                     | [VNum x; VNum y] => Ok (VNum (x + y))
                     | [VNum x; VNum y; VNum z] => Ok (VSeq [VNum 1; VNum (Qc_of_Z 4)])
                     | _ => Raise TypeError
                     end).

(** [p << {'x': 3}; p << {'y': y_of_x}; p << {'z': z_of_x_y}] *)
Definition store : engine :=
  (lshift no_sympy depth [("z", Fun z_of_x_y)]
     (lshift no_sympy depth [("y", Fun y_of_x)]
        (lshift no_sympy depth [("x", num (Qc_of_Z 3))] (init SI true)).2).2).2.

End Chain.

Module Partial.
Import Fixture.

(** A tuple that is not a (magnitude, unit) pair. *)
Definition malformed : pyval := Val (VSeq [VNum 1; VNum 2; VNum (Qc_of_Z 3)]).

Definition a_then_b : dict pyval := [("a", num 1); ("b", malformed)].
Definition b_then_a : dict pyval := [("b", num 1); ("a", malformed)].

End Partial.

Module Inverse.
Import Fixture.

(** The target declared first: [lambda p=None, x=None: ...]; given the
    target it returns the one-element sequence for [x]. *)
Definition target_first : pyfun :=
  mkFun ["p"; "x"] (fun args => match args with
                                | [VNum p; VNum x] => Ok (VSeq [VNum (p + 1)])
                                | _ => Ok (VNum 0)
                                end).

Definition store_target_first : engine :=
  (lshift no_sympy depth [("p", Fun target_first)]
     (lshift no_sympy depth [("x", num 1)] (init SI true)).2).2.

(** The documented form, [lambda x, y, z=None: ... (x', y')]. *)
Definition target_last : pyfun :=
  mkFun ["x"; "y"; "z"]
        (fun args => match args with
                     | [VNum x; VNum y; VNum z] => Ok (VSeq [VNum (z + 1); VNum (z + 2)])
                     | _ => Ok (VNum 0)
                     end).

Definition store_target_last : engine :=
  (lshift no_sympy depth [("z", Fun target_last)]
     (lshift no_sympy depth [("y", num 1)]
        (lshift no_sympy depth [("x", num 1)] (init SI true)).2).2).2.

(** The documented form on the unit-aware view of [x]:
    [lambda _x, z=None: ... (x',)]. *)
Definition target_last_prefixed : pyfun :=
  mkFun ["_x"; "z"]
        (fun args => match args with
                     | [_; VNum z] => Ok (VSeq [VNum (z + 1)])
                     | _ => Ok (VNum 0)
                     end).

Definition store_prefixed : engine :=
  (lshift no_sympy depth [("z", Fun target_last_prefixed)]
     (lshift no_sympy depth [("x", num 1)] (init SI true)).2).2.

End Inverse.

Module Instances.
Import Fixture.

Definition square : pyfun :=
  mkFun ["x"] (fun args => match args with
                           | [VNum x] => Ok (VNum (x * x))
                           | _ => Raise TypeError
                           end).

(** [p & {'y': 'ms'}] *)
Definition y_in_ms : engine := (and_ [("y", VStr "ms")] (init SI true)).2.

(** [p << {'x': (1,'ms')}] *)
Definition x_stored : engine :=
  (lshift no_sympy depth [("x", pair 1 "ms")] (init SI true)).2.

End Instances.

(** ** The call surface *)

Section Surface.

Variable sympy : Sympy.
Variable py_ne : pyval -> pyval -> bool.

(** [__call__]: with positional names a retrieval, without them an update
    that returns the instance. *)
Definition call_ (fuel : nat) (args : list string) (kwargs : dict pyval)
    : M (option (pyval + dict pyval)) :=
  call_kw ["self"] kwargs (
    match args with
    | [] => update sympy py_ne fuel kwargs ;;; ret None
    | _ => r <- get sympy py_ne fuel args kwargs ;; ret (Some r)
    end).

(** [__getattr__] *)
Definition getattr_ (fuel : nat) (name : string) : M (pyval + dict pyval) :=
  match name with
  | String "_" (String "_" _) => raise AttributeError
  | _ => get sympy py_ne fuel [name] []
  end.

(** [optimise], on [None], a function or a string. *)
Definition optimise (param : option (pyfun + string)) : M (option (pyfun + string)) :=
  match param with
  | None => ret None
  | Some (inl f) => ret (Some (inl f))
  | Some (inr s) =>
      if is_valid_param s then ret (Some (inr s))
      else f <- get_function sympy (inr s) ;; ret (Some (inl f))
  end.

End Surface.

(** ** Notions used in the further properties *)

(** The newline character as a string. *)
Definition newline : string := String (ascii_of_nat 10) EmptyString.

(** A name of the pattern: a letter or underscore, then word characters. *)
Definition identifier (s : string) : Prop :=
  match s with
  | EmptyString => False
  | String c body =>
      is_letter_ c = true /\ forallb is_word (list_ascii_of_string body) = true
  end.

(** Every basis scaling has the dimension vector of its own dimension. *)
Definition well_dimensioned (e : engine) : Prop :=
  forall dim q, scalings e !! dim = Some q -> udims (qunits q) = {[ dim := 1%Z ]}.

(** No entry of the unit scalings is for the dimension vector [dims]. *)
Definition no_unit_scaling (dims : gmap string Z) (e : engine) : Prop :=
  Forall (fun df => df.1 <> dims) (unit_scalings e).

(** A request of (magnitude, unit name) pairs and the state it leaves. *)
Definition request_pairs (items : list (string * (Qc * string))) : dict pyval :=
  map (fun it => (it.1, Val (VSeq [VNum it.2.1; VStr it.2.2]))) items.

Definition store_pairs (d : Dispenser) (items : list (string * (Qc * string)))
    (e : engine) : engine :=
  fold_left (fun e it =>
               match units_get d it.2.2 with
               | Some u => stored_as it.1 (mkQuantity it.2.1 u) e
               | None => e
               end) items e.

(** The override is a plain value for a name that no function holds. *)
Definition plain_override (e : engine) (item : string * pyval) : Prop :=
  is_data item.2 /\ forall f, parameters e !! item.1 <> Some (SFun f).

(** ** States used as instances of the further properties *)

Module Further.
Import Fixture.

(** Every string parses as the symbol it spells; nothing else is symbolic. *)
Definition symbols_only : Sympy :=
  mkSympy (fun s => Some [s]) (fun s => s)
          (fun _ _ => Raise (ValueError NotSymbolic)) (fun _ => None).

(** [lambda _x: 2*_x], on the unit-aware view of [x]. *)
Definition double_aware : pyfun :=
  mkFun ["_x"]
        (fun args => match args with
                     | [VQuantity q] =>
                         Ok (VQuantity (mkQuantity (2 * qvalue q) (qunits q)))
                     | _ => Raise TypeError
                     end).

(** [p << {'x': (1,'ms')}; p << {'y': lambda _x: 2*_x}] *)
Definition y_follows_x : engine :=
  (lshift no_sympy depth [("y", Fun double_aware)] Instances.x_stored).2.

(** [p << {'x': (1,'ms')}; p << {'y': lambda x: x*x}] *)
Definition y_squares_x : engine :=
  (lshift no_sympy depth [("y", Fun Instances.square)] Instances.x_stored).2.

(** [p(a=(1,'m'), b=(2,'s'))] *)
Definition two_pairs : list (string * (Qc * string)) :=
  [("a", (1, "m")); ("b", (2, "s"))].

(** A request with two names that are not identifiers. *)
Definition bad_names : dict pyval :=
  [("1x", num 1); ("y", num 2); ("a-b", num 1)].

(** [2*_x] parses as an expression in the symbol [_x]; every other string
    parses as the symbol it spells. *)
Definition doubling : Sympy :=
  mkSympy (fun s => if String.eqb s "2*_x" then Some ["_x"] else Some [s])
          (fun s => s)
          (fun _ _ => Raise (ValueError NotSymbolic)) (fun _ => None).

End Further.

(** * Properties *)

(** ** Reasoning about methods *)

Lemma bind_Ok {A B} (c : M A) (k : A -> M B) e b e' :
  bind c k e = (Ok b, e') ->
  exists a e1, c e = (Ok a, e1) /\ k a e1 = (Ok b, e').
Proof.
  unfold bind. destruct (c e) as [[a|x] e1]; [eauto | discriminate].
Qed.

Lemma bind_run {A B} (c : M A) (k : A -> M B) e a e1 :
  c e = (Ok a, e1) -> bind c k e = k a e1.
Proof. unfold bind. now intros ->. Qed.

Lemma bind_raise {A B} (c : M A) (k : A -> M B) e x e1 :
  c e = (Raise x, e1) -> bind c k e = (Raise x, e1).
Proof. unfold bind. now intros ->. Qed.

Lemma engine_eta e :
  mkEngine (parameters_spec e) (parameters e) (scalings e) (unit_scalings e)
           (units e) (default_scaled e) (scaling_cache e) = e.
Proof. now destruct e. Qed.

Lemma pure_ret {A} (a : A) : pure_of (ret a).
Proof. now intros e. Qed.

Lemma pure_raise {A} x : pure_of (@raise A x).
Proof. now intros e. Qed.

Lemma pure_self : pure_of self.
Proof. now intros e. Qed.

Lemma pure_lift {A} (o : outcome A) : pure_of (lift o).
Proof. now intros e. Qed.

Lemma pure_bind {A B} (c : M A) (k : A -> M B) :
  pure_of c -> (forall a, pure_of (k a)) -> pure_of (bind c k).
Proof.
  intros Hc Hk e. unfold bind. specialize (Hc e).
  destruct (c e) as [[a|x] e1]; simpl in *; subst; [apply Hk | reflexivity].
Qed.

Lemma pure_forM_ {A} (l : list A) (f : A -> M unit) :
  (forall a, pure_of (f a)) -> pure_of (forM_ l f).
Proof.
  intros Hf. induction l as [|a l IH]; simpl.
  - apply pure_ret.
  - apply pure_bind; [apply Hf | intros _; apply IH].
Qed.

Lemma pure_get_function sympy expr : pure_of (get_function sympy expr).
Proof.
  destruct expr as [f|s]; simpl; [apply pure_ret|].
  destruct (sympy_lambdify sympy s); [apply pure_ret | apply pure_raise].
Qed.

Lemma pure_get_unit v : pure_of (get_unit v).
Proof.
  intros e. unfold get_unit, bind, self. simpl.
  destruct v; try reflexivity.
  destruct (units_get (units e) s); reflexivity.
Qed.

Lemma pure_check_forbidden args forbidden : pure_of (check_forbidden args forbidden).
Proof.
  destruct forbidden as [fb|]; simpl; [|apply pure_ret].
  destruct (find _ fb); [apply pure_raise | apply pure_ret].
Qed.

Lemma pure_check_arg check forbidden arg :
  (forall a g fb, pure_of (check a g fb)) -> pure_of (check_arg check forbidden arg).
Proof.
  intros Hc. apply pure_bind; [apply pure_self|].
  intros e. destruct (parameters e !! arg) as [[q|g]|]; try apply pure_ret.
  apply pure_bind; [apply Hc | intros _; apply pure_ret].
Qed.

Lemma pure_check_function fuel :
  forall param f forbidden, pure_of (check_function fuel param f forbidden).
Proof.
  induction fuel as [|n IH]; intros param f forbidden; simpl.
  - apply pure_raise.
  - apply pure_bind; [apply pure_check_forbidden|].
    intros fb. apply pure_bind; [|intros _; apply pure_ret].
    apply pure_forM_. intros arg. now apply pure_check_arg.
Qed.

(** ** Removing a parameter *)

Lemma remove_run param e :
  remove param e =
  (Ok tt, set_parameters_spec (delete param (parameters_spec e))
            (set_parameters (delete param (parameters e)) e)).
Proof.
  unfold remove, bind, self, modify, ret, set_parameters_spec, set_parameters.
  simpl.
  case_bool_decide as Hp; simpl; case_bool_decide as Hs; simpl;
    try reflexivity; f_equal.
  - apply eq_None_not_Some in Hs. now rewrite (delete_id _ _ Hs).
  - apply eq_None_not_Some in Hp. now rewrite (delete_id _ _ Hp).
  - apply eq_None_not_Some in Hp, Hs.
    rewrite (delete_id _ _ Hp), (delete_id _ _ Hs). symmetry. apply engine_eta.
Qed.

(** C10: for every string name the remove operation returns without
    raising; it deletes the value and the unit spec of the name and touches
    nothing else; when the name has neither, the state is left as it was;
    and removing the name a second time changes nothing more. *)
Theorem remove_never_fails_and_is_idempotent (name : string) (e : engine) :
  let e1 := (sub (VStr name) e).2 in
  (sub (VStr name) e).1 = Ok tt
  /\ parameters e1 !! name = None
  /\ parameters_spec e1 !! name = None
  /\ (forall other, other <> name ->
        parameters e1 !! other = parameters e !! other
        /\ parameters_spec e1 !! other = parameters_spec e !! other)
  /\ (scalings e1, unit_scalings e1, units e1, default_scaled e1, scaling_cache e1)
     = (scalings e, unit_scalings e, units e, default_scaled e, scaling_cache e)
  /\ (parameters e !! name = None -> parameters_spec e !! name = None -> e1 = e)
  /\ sub (VStr name) e1 = (Ok tt, e1).
Proof.
  simpl. rewrite !remove_run. simpl.
  repeat split.
  - apply lookup_delete_eq.
  - apply lookup_delete_eq.
  - now apply lookup_delete_ne.
  - now apply lookup_delete_ne.
  - intros Hp Hs. unfold set_parameters_spec, set_parameters; simpl.
    rewrite !delete_id by assumption. apply engine_eta.
  - unfold set_parameters_spec, set_parameters; simpl.
    now rewrite !delete_delete_eq.
Qed.

(** ** Assigning a function *)

Tactic Notation "bind_inv" hyp(H) "as" ident(a) ident(e1) ident(H1) :=
  apply bind_Ok in H as (a & e1 & H1 & H).

Lemma pure_run {A} (c : M A) e r e' : pure_of c -> c e = (r, e') -> e' = e.
Proof. intros Hc H. specialize (Hc e). rewrite H in Hc. exact Hc. Qed.

Lemma get_unit_units v e e' : units e' = units e -> (get_unit v e').1 = (get_unit v e).1.
Proof.
  intros Hu. unfold get_unit, bind, self. simpl. rewrite Hu.
  destruct v; try reflexivity.
  destruct (units_get (units e) s); reflexivity.
Qed.

Lemma spec_one_run param u e :
  param <> "self" ->
  spec [(param, VUnit u)] e =
  (Ok tt,
   let e1 := set_parameters_spec (<[param := u]> (parameters_spec e)) e in
   match parameters e !! param with
   | Some (SQuantity q) =>
       set_parameters (<[param := SQuantity (mkQuantity (qvalue q) u)]> (parameters e)) e1
   | _ => e1
   end).
Proof.
  intros Hn. cbv [spec call_kw existsb dict_in dict_get].
  destruct (String.eqb "self" param) eqn:E;
    [apply String.eqb_eq in E; congruence|].
  cbv [orb forM_].
  unfold bind, spec_step, get_unit, self, modify, ret. simpl.
  destruct (parameters e !! param) as [[q|g]|]; reflexivity.
Qed.

Lemma check_function_Ok fuel param f forbidden e g e' :
  check_function fuel param f forbidden e = (Ok g, e') -> g = f.
Proof.
  destruct fuel; simpl; [discriminate|]. intros H.
  bind_inv H as fb e1 H1. bind_inv H as u e2 H2. unfold ret in H. congruence.
Qed.

Lemma install_Ok sympy fuel param expr the_unit e e' :
  param <> "self" -> pure_of the_unit ->
  install sympy fuel param expr the_unit e = (Ok tt, e') ->
  exists f u,
    (get_function sympy expr e).1 = Ok f
    /\ (the_unit (set_parameters (<[param := SFun f]> (parameters e)) e)).1 = Ok u
    /\ parameters_spec e' !! param = Some u
    /\ parameters e' !! param = Some (SFun f).
Proof.
  intros Hn Hpure H. unfold install in H.
  bind_inv H as f e1 Hf.
  pose proof (pure_run _ _ _ _ (pure_get_function _ _) Hf) as ->.
  bind_inv H as g e2 Hg.
  pose proof (pure_run _ _ _ _ (pure_check_function _ _ _ _) Hg) as ->.
  apply check_function_Ok in Hg as ->.
  bind_inv H as t e3 Hm. unfold modify in Hm. injection Hm as _ <-.
  bind_inv H as u e4 Hu.
  pose proof (pure_run _ _ _ _ Hpure Hu) as ->.
  rewrite spec_one_run in H by assumption. injection H as <-.
  exists f, u. rewrite Hf, Hu. simpl. rewrite lookup_insert_eq. simpl.
  repeat split; apply lookup_insert_eq.
Qed.

Lemma set_single_Ok sympy fuel name val e e' :
  set sympy fuel [(name, val)] e = (Ok tt, e') ->
  name <> "self" /\ is_valid_param name = true
  /\ set_one sympy fuel name val e = (Ok tt, e').
Proof.
  cbv [set call_kw existsb dict_in dict_get dict_keys map fst].
  destruct (String.eqb "self" name) eqn:E; [discriminate|].
  apply String.eqb_neq in E. cbv [orb]. intros H.
  bind_inv H as t e1 Hv.
  unfold check_valid_params in Hv. rewrite filter_cons, filter_nil in Hv.
  destruct (decide (is_valid_param name = false)) as [Ev|Ev]; [discriminate|].
  apply not_false_is_true in Ev. injection Hv as _ <-.
  simpl in H. bind_inv H as t' e2 Hs. unfold ret in H. injection H as <-.
  unfold except_ValueError in Hs. simpl in Hs.
  destruct (set_one sympy fuel name val e) as [[[]|x] e3] eqn:Es.
  - injection Hs as <-. subst. auto.
  - destruct x; discriminate.
Qed.

(** C9: when a bare function or a string expression is durably assigned to
    a name, the unit spec of the name afterwards is the dimensionless unit of
    the dispenser, whatever was declared for it before; when the assigned
    value is a pair of a function (or string expression) and a unit, the unit
    spec afterwards is that unit. *)
Theorem function_assignment_sets_unit_spec sympy fuel name val e e' :
  lshift sympy fuel [(name, val)] e = (Ok tt, e') ->
  match val with
  | Fun f =>
      parameters e' !! name = Some (SFun f)
      /\ exists u, units_get (units e) "" = Some u
                   /\ parameters_spec e' !! name = Some u
  | Val (VStr s) =>
      (exists f, sympy_lambdify sympy s = Some f
                 /\ parameters e' !! name = Some (SFun f))
      /\ exists u, units_get (units e) "" = Some u
                   /\ parameters_spec e' !! name = Some u
  | FunUnit f unit =>
      parameters e' !! name = Some (SFun f)
      /\ exists u, (get_unit unit e).1 = Ok u
                   /\ parameters_spec e' !! name = Some u
  | Val (VSeq (VStr s :: unit :: _)) =>
      (exists f, sympy_lambdify sympy s = Some f
                 /\ parameters e' !! name = Some (SFun f))
      /\ exists u, (get_unit unit e).1 = Ok u
                   /\ parameters_spec e' !! name = Some u
  | _ => True
  end.
Proof.
  unfold lshift. intros H. apply set_single_Ok in H as (Hn & _ & H).
  assert (Hconst : forall e1 u, units e1 = units e ->
            (get_unit (VStr "") e1).1 = Ok u -> units_get (units e) "" = Some u).
  { intros e1 u Hu. unfold get_unit, bind, self. simpl. rewrite Hu.
    destruct (units_get (units e) ""); simpl; congruence. }
  destruct val as [[x|s|u|q|[|[x|s|u|q|l] rest]]|f|f unit]; try exact I;
    simpl in H.
  - apply install_Ok in H as (f & u & Hf & Hu & Hs & Hp);
      [|assumption|apply pure_get_unit].
    simpl in Hf. destruct (sympy_lambdify sympy s) as [g|]; [|discriminate].
    injection Hf as <-. split; [eauto|]. exists u. split; [|assumption].
    eapply Hconst; [|exact Hu]. reflexivity.
  - destruct rest as [|unit rest]; [exact I|].
    apply install_Ok in H as (f & u & Hf & Hu & Hs & Hp); [|assumption|].
    2:{ apply pure_bind; [apply pure_ret | intros; apply pure_get_unit]. }
    simpl in Hf. destruct (sympy_lambdify sympy s) as [g|]; [|discriminate].
    injection Hf as <-. split; [eauto|]. exists u. split; [|assumption].
    simpl in Hu. unfold bind, ret in Hu. simpl in Hu.
    rewrite <- Hu. symmetry. now apply get_unit_units.
  - apply install_Ok in H as (g & u & Hf & Hu & Hs & Hp);
      [|assumption|apply pure_get_unit].
    injection Hf as <-. split; [assumption|]. exists u. split; [|assumption].
    eapply Hconst; [|exact Hu]. reflexivity.
  - apply install_Ok in H as (g & u & Hf & Hu & Hs & Hp);
      [|assumption|apply pure_get_unit].
    injection Hf as <-. split; [assumption|]. exists u. split; [|assumption].
    rewrite <- Hu. symmetry. now apply get_unit_units.
Qed.

(** ** Reading a stored quantity *)

Lemma get_pam_name_plain x : is_prefixed x = false -> get_pam_name x = x.
Proof.
  destruct x as [|c x]; [reflexivity|]. simpl.
  destruct c as [[] [] [] [] [] [] [] []]; simpl; congruence.
Qed.

Lemma is_prefixed_underscore x : is_prefixed ("_" ++ x) = true.
Proof. reflexivity. Qed.

Lemma get_pam_name_underscore x : get_pam_name ("_" ++ x) = x.
Proof. reflexivity. Qed.

Lemma process_override_nil sympy py_ne n e :
  process_override sympy py_ne (S n) [] None e = (Ok [], e).
Proof. reflexivity. Qed.

(** The view of a stored quantity: [arg] is the name or the name with the
    prefix, which flips [default_scaled]. *)
Lemma get_param_stored sympy n arg q e :
  parameters e !! get_pam_name arg = Some (SQuantity q) ->
  get_param sympy (S n) arg [] e =
  get_quantity (Val (VQuantity q)) (Some (get_pam_name arg)) None
    (if is_prefixed arg then negb (default_scaled e) else default_scaled e) e.
Proof.
  intros Hq. simpl. unfold call_kw, bind, self. simpl.
  rewrite Hq. rewrite bool_decide_eq_true_2 by eauto. simpl. reflexivity.
Qed.

Lemma get_stored sympy py_ne n arg q e :
  parameters e !! get_pam_name arg = Some (SQuantity q) ->
  get sympy py_ne (S n) [arg] [] e =
  match get_quantity (Val (VQuantity q)) (Some (get_pam_name arg)) None
          (if is_prefixed arg then negb (default_scaled e) else default_scaled e) e
  with
  | (Ok v, e') => (Ok (inl v), e')
  | (Raise x, e') => (Raise x, e')
  end.
Proof.
  intros Hq. cbv [get call_kw existsb dict_in dict_get orb].
  rewrite (bind_run _ _ _ _ _ (process_override_nil _ _ _ _)).
  cbv [get_params call_kw existsb dict_in dict_get orb].
  unfold bind at 1. rewrite (get_param_stored _ _ _ _ _ Hq).
  destruct (get_quantity _ _ _ _ e) as [[v|x] e']; reflexivity.
Qed.

Lemma get_quantity_unit_aware q param e :
  get_quantity (Val (VQuantity q)) param None false e = (Ok (Val (VQuantity q)), e).
Proof. reflexivity. Qed.

Lemma get_quantity_scaled q param e s e' :
  unit_scaling (qunits q) e = (Ok s, e') -> s <> 0 ->
  get_quantity (Val (VQuantity q)) param None true e
  = (Ok (Val (VNum (qvalue q / s))), e').
Proof.
  intros Hs Hz. unfold get_quantity. simpl.
  unfold bind at 1. unfold ret at 1. unfold bind at 1. rewrite Hs.
  unfold py_div. rewrite decide_False by assumption. reflexivity.
Qed.

(** ** Setting a quantity *)

Lemma call_kw_self_single {A B} name (v : B) (body : M A) :
  name <> "self" -> call_kw ["self"] [(name, v)] body = body.
Proof.
  intros Hn. cbv [call_kw existsb dict_in dict_get].
  destruct (String.eqb "self" name) eqn:E; [|reflexivity].
  apply String.eqb_eq in E. congruence.
Qed.

Lemma check_valid_single name e :
  is_valid_param name = true -> check_valid_params [name] e = (Ok tt, e).
Proof.
  intros Hv. unfold check_valid_params. rewrite filter_cons, filter_nil.
  rewrite decide_False by congruence. reflexivity.
Qed.

Lemma set_pair_run sympy fuel name v uname u e :
  name <> "self" -> is_valid_param name = true ->
  units_get (units e) uname = Some u ->
  set sympy fuel [(name, Val (VSeq [VNum v; VStr uname]))] e
  = (Ok tt, stored_as name (mkQuantity v u) e).
Proof.
  intros Hn Hv Hu. unfold set. rewrite call_kw_self_single by assumption.
  cbv [dict_keys map fst].
  rewrite (bind_run _ _ _ _ _ (check_valid_single _ _ Hv)).
  cbv [forM_ snd fst]. unfold bind at 1. unfold except_ValueError.
  assert (Hs : set_one sympy fuel name (Val (VSeq [VNum v; VStr uname])) e
               = (Ok tt, stored_as name (mkQuantity v u) e)).
  { unfold set_one, get_quantity, quantity_new.
    unfold bind at 1. unfold bind at 1. unfold bind at 1. unfold bind at 1.
    cbv [self]. rewrite Hu. cbv [ret negb]. unfold bind at 1. unfold modify at 1.
    rewrite spec_one_run by assumption. cbn.
    rewrite lookup_insert_eq. unfold stored_as, set_parameters, set_parameters_spec.
    cbn. now rewrite insert_insert_eq. }
  rewrite Hs. reflexivity.
Qed.

Lemma process_override_S sympy py_ne n kwargs restrict :
  process_override sympy py_ne (S n) kwargs restrict =
  let restrict := match restrict with
                  | None => dict_keys kwargs
                  | Some r => r
                  end in
  match restrict with
  | [] => ret kwargs
  | _ =>
      kwargs1 <- foldM (normalize_step sympy n restrict) kwargs kwargs ;;
      new <- foldM (ratify_step sympy py_ne n restrict kwargs1) [] kwargs1 ;;
      process_override sympy py_ne n (dict_update kwargs1 new) (Some (dict_keys new))
  end.
Proof. reflexivity. Qed.

Lemma normalize_step_data sympy n restrict kwargs item e :
  is_data item.2 -> normalize_step sympy n restrict kwargs item e = (Ok kwargs, e).
Proof.
  unfold normalize_step. destruct (mem item.1 restrict); [|reflexivity].
  destruct item.2 as [[]| |]; simpl; intros []; reflexivity.
Qed.

Lemma ratify_step_concrete sympy py_ne n restrict kwargs new item e :
  (forall f, parameters e !! item.1 <> Some (SFun f)) ->
  ratify_step sympy py_ne n restrict kwargs new item e = (Ok new, e).
Proof.
  intros Hf. unfold ratify_step. destruct (mem item.1 restrict); [|reflexivity].
  unfold bind, self.
  destruct (parameters e !! item.1) as [[q|f]|];
    [reflexivity | exfalso; now apply (Hf f) | reflexivity].
Qed.

Lemma foldM_one {A S} (f : S -> A -> M S) s a e s' e' :
  f s a e = (Ok s', e') -> foldM f s [a] e = (Ok s', e').
Proof. intros H. simpl. unfold bind. now rewrite H. Qed.

Lemma update_pair_run sympy py_ne n name v uname u e :
  name <> "self" -> is_valid_param name = true ->
  units_get (units e) uname = Some u ->
  (forall f, parameters e !! name <> Some (SFun f)) ->
  update sympy py_ne (S (S n)) [(name, Val (VSeq [VNum v; VStr uname]))] e
  = (Ok tt, stored_as name (mkQuantity v u) e).
Proof.
  intros Hn Hv Hu Hf. unfold update. rewrite call_kw_self_single by assumption.
  cbv [dict_keys map fst].
  rewrite (bind_run _ _ _ _ _ (check_valid_single _ _ Hv)).
  assert (Hp : process_override sympy py_ne (S (S n))
                 [(name, Val (VSeq [VNum v; VStr uname]))] None e
               = (Ok [(name, Val (VSeq [VNum v; VStr uname]))], e)).
  { rewrite process_override_S. cbn [dict_keys map fst].
    erewrite bind_run
      by (apply foldM_one, normalize_step_data; exact I).
    erewrite bind_run
      by (apply foldM_one, ratify_step_concrete; exact Hf).
    reflexivity. }
  rewrite (bind_run _ _ _ _ _ Hp).
  cbn [forM_ fst snd]. unfold bind at 1. unfold update_step at 1.
  unfold bind at 1. cbv [self fst].
  assert (Hs := set_pair_run sympy (S (S n)) name v uname u e Hn Hv Hu).
  destruct (parameters e !! name) as [[q|f]|] eqn:Ep;
    [| exfalso; now apply (Hf f) |]; rewrite Hs; reflexivity.
Qed.

(** ** The scaling cache *)

Lemma pure_foldM {A S} (f : S -> A -> M S) (l : list A) :
  (forall s a, pure_of (f s a)) -> forall s, pure_of (foldM f s l).
Proof.
  intros Hf. induction l as [|a l IH]; intros s; simpl.
  - apply pure_ret.
  - apply pure_bind; [apply Hf | intros s'; apply IH].
Qed.

Lemma pure_py_div a b : pure_of (py_div a b).
Proof. unfold py_div. destruct (decide (b = 0)); [apply pure_raise | apply pure_ret]. Qed.

Lemma pure_unit_scaling_direct u : pure_of (unit_scaling_direct u).
Proof.
  unfold unit_scaling_direct. apply pure_bind.
  - unfold basis_scale. apply pure_bind; [apply pure_get_unit|].
    intros u'. apply pure_foldM. intros acc dp. unfold basis_scale_step.
    apply pure_bind; [apply pure_self|]. intros e.
    destruct (units_basis (units e) !! dp.1); [|apply pure_raise].
    apply pure_bind; [|intros; apply pure_ret].
    unfold quantity_power. destruct (decide _); [apply pure_raise | apply pure_ret].
  - intros scale. apply pure_bind; [|intros; apply pure_py_div].
    unfold unit_scale. apply pure_bind; [apply pure_self | intros; apply pure_ret].
Qed.

(** [__unit_scaling] either answers from the cache or computes the factor
    and adds it to the cache; nothing else of the state changes. *)
Lemma unit_scaling_run u e :
  unit_scaling u e =
  match cache_get u (scaling_cache e) with
  | Some s => (Ok s, e)
  | None =>
      match (unit_scaling_direct u e).1 with
      | Ok s => (Ok s, set_scaling_cache ((u, s) :: scaling_cache e) e)
      | Raise x => (Raise x, e)
      end
  end.
Proof.
  unfold unit_scaling, bind, self. simpl.
  destruct (cache_get u (scaling_cache e)); [reflexivity|].
  pose proof (pure_unit_scaling_direct u e) as Hp.
  destruct (unit_scaling_direct u e) as [[s|x] e1]; simpl in *; subst; reflexivity.
Qed.

Lemma unit_scaling_cached u e s e' :
  unit_scaling u e = (Ok s, e') ->
  cache_get u (scaling_cache e') = Some s
  /\ (parameters_spec e', parameters e', scalings e', unit_scalings e',
      units e', default_scaled e')
     = (parameters_spec e, parameters e, scalings e, unit_scalings e,
        units e, default_scaled e).
Proof.
  rewrite unit_scaling_run.
  destruct (cache_get u (scaling_cache e)) as [s'|] eqn:Ec.
  - intros [= <- <-]. auto.
  - destruct (unit_scaling_direct u e).1 as [s'|x]; [|discriminate].
    intros [= <- <-]. simpl. rewrite decide_True by reflexivity. auto.
Qed.

Lemma unit_scaling_again u e s e' :
  unit_scaling u e = (Ok s, e') -> unit_scaling u e' = (Ok s, e').
Proof.
  intros H. apply unit_scaling_cached in H as [Hc _].
  rewrite unit_scaling_run. now rewrite Hc.
Qed.


(** ** Set followed by read *)


Lemma get_quantity_pair v uname u param e :
  units_get (units e) uname = Some u ->
  get_quantity (Val (VSeq [VNum v; VStr uname])) param None false e
  = (Ok (Val (VQuantity (mkQuantity v u))), e).
Proof.
  intros Hu. unfold get_quantity, quantity_new, bind, self, ret. simpl.
  rewrite Hu. reflexivity.
Qed.

(** ** The length scenario *)

Section Scenario.

Variable sympy : Sympy.
Variable py_ne : pyval -> pyval -> bool.
Variable d : Dispenser.
Variables um b : Unit.
Hypothesis get_m : units_get d "m" = Some um.
Hypothesis dims_m : udims um = {[ "length" := 1%Z ]}.
Hypothesis rel_m : urel um <> 0.
Hypothesis length_dimension : mem "length" (units_dimensions d) = true.
Hypothesis length_basis : units_basis d !! "length" = Some b.

Lemma scaling_set_length :
  mul (Dimensions [("length", Val (VSeq [VNum 2; VStr "m"]))]) (init d true)
  = (Ok tt, scaled_by_two d um).
Proof.
  unfold mul, scaling_set, bind, modify, self, ret. simpl.
  unfold scaling_step, bind, self, ret. simpl.
  rewrite length_dimension.
  rewrite (get_quantity_pair 2 "m" um) by exact get_m.
  simpl. rewrite decide_True by exact dims_m. reflexivity.
Qed.

Lemma unit_scaling_direct_m e :
  units e = d -> scalings e = {[ "length" := two_metres um ]} -> unit_scalings e = [] ->
  unit_scaling_direct um e = (Ok 2, e).
Proof.
  intros Hd Hs Hus.
  unfold unit_scaling_direct, basis_scale, get_unit, bind, self, ret. simpl.
  rewrite dims_m, map_to_list_singleton. simpl.
  unfold basis_scale_step, bind, self, ret. simpl.
  rewrite Hd, length_basis, Hs, lookup_singleton_eq.
  unfold quantity_power. rewrite decide_False by (intros [_ ?]; lia). simpl.
  unfold unit_scale, bind, self, ret. simpl. rewrite Hus. simpl.
  unfold py_div. rewrite decide_False by discriminate. unfold ret.
  f_equal. f_equal. unfold unit_scale_to. simpl.
  field. split; [exact rel_m | discriminate].
Qed.

(** C7: on an engine constructed with [default_scaled] true, after the basis
    scaling of the length dimension is set to [(2, "m")] and the parameter
    [x] is set to [(1, "m")], the scaled view of [x] is [1/2] and the
    unit-aware view of [x] is the quantity of magnitude [1] in metres. *)
Theorem length_scaling_scenario (n : nat) :
  let scale := mul (Dimensions [("length", Val (VSeq [VNum 2; VStr "m"]))]) in
  let set_x := update sympy py_ne (S (S n)) [("x", Val (VSeq [VNum 1; VStr "m"]))] in
  let e1 := (scale (init d true)).2 in
  let e2 := (set_x e1).2 in
  (scale (init d true)).1 = Ok tt
  /\ (set_x e1).1 = Ok tt
  /\ (get sympy py_ne (S n) ["x"] [] e2).1 = Ok (inl (Val (VNum (1 / 2))))
  /\ (get sympy py_ne (S n) ["_x"] [] e2).1
     = Ok (inl (Val (VQuantity (mkQuantity 1 um)))).
Proof.
  cbv zeta. rewrite scaling_set_length. cbn [fst snd].
  assert (Hset : update sympy py_ne (S (S n))
                   [("x", Val (VSeq [VNum 1; VStr "m"]))] (scaled_by_two d um)
                 = (Ok tt, stored_as "x" (mkQuantity 1 um) (scaled_by_two d um))).
  { apply update_pair_run; [discriminate | reflexivity | exact get_m |].
    intros f. simpl. rewrite lookup_empty. discriminate. }
  rewrite Hset. cbn [fst snd].
  set (e2 := stored_as "x" (mkQuantity 1 um) (scaled_by_two d um)).
  assert (Hq : parameters e2 !! "x" = Some (SQuantity (mkQuantity 1 um)))
    by apply lookup_insert_eq.
  assert (Hs : unit_scaling um e2
               = (Ok 2, set_scaling_cache [(um, 2)] e2)).
  { rewrite unit_scaling_run. simpl.
    rewrite (unit_scaling_direct_m e2) by reflexivity. reflexivity. }
  do 2 (split; [reflexivity|]). split.
  - rewrite (get_stored _ _ _ "x" _ _ Hq). simpl is_prefixed. cbv iota.
    change (default_scaled e2) with true.
    rewrite (get_quantity_scaled (mkQuantity 1 um) _ _ _ _ Hs) by discriminate.
    reflexivity.
  - rewrite (get_stored _ _ _ "_x" _ _ Hq). reflexivity.
Qed.

End Scenario.

(** ** The scaling cache after a change of the basis *)

Lemma outcome_Qc_eq (a b : Qc) : (this a == this b)%Q -> Ok a = Ok b.
Proof. intros H. f_equal. now apply Qc_is_canon. Qed.

(** C5 (failing input): with the unit [m] declared for a parameter named
    [length], setting the basis of the dimension [length] to the bare number
    [2] succeeds and stores the scaling [2 m], yet the cache then answers [1]
    for the unit [m] while the factor computed from the tables is [2]. *)
Theorem scaling_cache_stale_after_basis_change :
  (mul (Dimensions [("length", Fixture.num 2)]) StaleCache.declared).1 = Ok tt
  /\ scalings StaleCache.rescaled !! "length" = Some (mkQuantity 2 Fixture.m)
  /\ (unit_scaling Fixture.m StaleCache.rescaled).1 = Ok 1
  /\ (unit_scaling_direct Fixture.m StaleCache.rescaled).1 = Ok 2.
Proof.
  split; [reflexivity|]. split; [|split].
  - vm_compute. reflexivity.
  - vm_compute. now apply outcome_Qc_eq.
  - vm_compute. now apply outcome_Qc_eq.
Qed.

(** ** The cycle check *)

Lemma forM__raise_at {A} (f : A -> M unit) (l : list A) a e :
  In a l -> pure_of (f a) -> (forall b, pure_of (f b)) ->
  (exists x, (f a e).1 = Raise x) ->
  exists x, forM_ l f e = (Raise x, e).
Proof.
  intros Hin Hpa Hp [x Hx]. induction l as [|b l IH]; [contradiction|].
  simpl. unfold bind.
  pose proof (Hp b e) as Hb.
  destruct (f b e) as [[[]|y] e1] eqn:Eb; simpl in Hb; subst e1.
  - destruct Hin as [->|Hin].
    + rewrite Eb in Hx. discriminate.
    + apply IH, Hin.
  - eauto.
Qed.

(** A function of [param] that names a parameter [a] held by a function
    which itself names [param] is refused, whatever stack is left. *)
Lemma check_function_direct_cycle fuel param g a fa e :
  parameters e !! a = Some (SFun fa) ->
  In param (fargs fa) -> In a (fargs g) -> a <> param ->
  exists x, check_function fuel param g None e = (Raise x, e).
Proof.
  intros Ha Hp Hg Hne. destruct fuel as [|n]; simpl; [eexists; reflexivity|].
  unfold bind at 1. unfold ret at 1. unfold bind at 1.
  destruct (forM__raise_at (check_arg (check_function n) ([] ++ [param]))
              (filter (fun x => x ≠ param) (fargs g)) a e) as [x Hx].
  - apply list_elem_of_In, list_elem_of_filter. split; [assumption|].
    now apply list_elem_of_In.
  - apply pure_check_arg, pure_check_function.
  - intros c. apply pure_check_arg, pure_check_function.
  - unfold check_arg, bind, self. rewrite Ha.
    destruct n as [|m]; simpl; [eexists; reflexivity|].
    unfold bind at 1.
    assert (Hm : mem param (filter (fun x => x ≠ a) (fargs fa)) = true).
    { unfold mem. apply existsb_exists. exists param. split.
      - apply list_elem_of_In, list_elem_of_filter. split; [congruence|].
        now apply list_elem_of_In.
      - apply String.eqb_refl. }
    rewrite Hm. eexists; reflexivity.
  - rewrite Hx. eexists; reflexivity.
Qed.

Lemma set_function_refused sympy fuel name f x e :
  check_function fuel name f None e = (Raise x, e) ->
  exists y, set sympy fuel [(name, Fun f)] e = (Raise y, e).
Proof.
  intros Hc. unfold set, call_kw.
  destruct (existsb _ _); [eexists; reflexivity|].
  unfold bind at 1. unfold check_valid_params.
  destruct (filter _ _); [|eexists; reflexivity].
  cbv [ret forM_]. unfold bind at 1. unfold except_ValueError.
  assert (Hs : set_one sympy fuel (name, Fun f).1 (name, Fun f).2 e = (Raise x, e)).
  { simpl. unfold install. simpl. unfold bind at 1. unfold ret at 1.
    unfold bind at 1. rewrite Hc. reflexivity. }
  rewrite Hs. destruct x; eexists; reflexivity.
Qed.

(** C3 (failing input): a function of [param] that names a parameter held
    by a function which names [param] is refused and the state is left as it
    was, so defining [a] from [b] and then [b] from [a] fails at the second
    definition; but when the two functions name each other through the
    prefixed arguments [_b] and [_a], the second definition is accepted and
    installed. *)
Theorem cycle_check_ignores_prefixed_arguments :
  (forall sympy fuel e a param fa g,
      parameters e !! a = Some (SFun fa) ->
      In param (fargs fa) -> In a (fargs g) -> a <> param ->
      exists x, lshift sympy fuel [(param, Fun g)] e = (Raise x, e))
  /\ lshift Fixture.no_sympy Fixture.depth [("b", Fun Cycle.b_of_a)] Cycle.with_a
     = (Raise (ValueError (CouldNotAdd "b" (RecursionWith "b"))), Cycle.with_a)
  /\ (lshift Fixture.no_sympy Fixture.depth [("b", Fun Cycle.b_of__a)] Cycle.with__a).1
     = Ok tt
  /\ parameters Cycle.with__a__b !! "a" = Some (SFun Cycle.a_of__b)
  /\ parameters Cycle.with__a__b !! "b" = Some (SFun Cycle.b_of__a).
Proof.
  split; [|repeat split; vm_compute; reflexivity].
  intros sympy fuel e a param fa g Ha Hp Hg Hne.
  destruct (check_function_direct_cycle fuel param g a fa e Ha Hp Hg Hne) as [x Hx].
  exact (set_function_refused sympy fuel param g x e Hx).
Qed.

(** ** Evaluation through prefixed arguments *)

Lemma call_kw_free {A B} names (kwargs : dict B) (body : M A) :
  existsb (fun n => dict_in n kwargs) names = false ->
  call_kw names kwargs body = body.
Proof. unfold call_kw. now intros ->. Qed.

Lemma mapM_raise_first {A B} (f : A -> M B) a l x e e' :
  f a e = (Raise x, e') -> mapM f (a :: l) e = (Raise x, e').
Proof. intros H. simpl. unfold bind. now rewrite H. Qed.

Section PrefixedCycle.

Variable sympy : Sympy.
Variable kwargs : dict pyval.
Variable e : engine.
Hypothesis stored_a : parameters e !! "a" = Some (SFun Cycle.a_of__b).
Hypothesis stored_b : parameters e !! "b" = Some (SFun Cycle.b_of__a).
Hypothesis free :
  existsb (fun n => dict_in n kwargs) ["self"; "arg"; "param"; "a"; "b"] = false.

Lemma free_self_arg : existsb (fun n => dict_in n kwargs) ["self"; "arg"] = false.
Proof.
  simpl in *. repeat (apply orb_false_elim in free as [? free]).
  repeat (apply orb_false_intro; try assumption).
Qed.

Lemma free_self_param : existsb (fun n => dict_in n kwargs) ["self"; "param"] = false.
Proof.
  simpl in *. repeat (apply orb_false_elim in free as [? free]).
  repeat (apply orb_false_intro; try assumption).
Qed.

Lemma free_a : dict_in "a" kwargs = false.
Proof. simpl in *. now repeat (apply orb_false_elim in free as [? free]). Qed.

Lemma free_b : dict_in "b" kwargs = false.
Proof. simpl in *. now repeat (apply orb_false_elim in free as [? free]). Qed.

Lemma dict_in_get {A} k (d : dict A) : dict_in k d = false -> dict_get k d = None.
Proof. unfold dict_in. now destruct (dict_get k d). Qed.

(** Reading [a] or [b], in either view, uses up whatever stack there is. *)
Lemma prefixed_cycle_exhausts_stack fuel :
  forall arg, get_pam_name arg = "a" \/ get_pam_name arg = "b" ->
  get_param sympy fuel arg kwargs e = (Raise RuntimeError, e).
Proof.
  induction fuel as [fuel IH] using lt_wf_ind. intros arg Harg.
  destruct fuel as [|n]; [reflexivity|].
  cbn [get_param]. rewrite (call_kw_free _ _ _ free_self_arg).
  unfold bind at 1. cbv [self].
  destruct Harg as [-> | ->].
  - rewrite stored_a, free_a, (dict_in_get _ _ free_a). cbn [negb andb].
    rewrite bool_decide_eq_true_2 by eauto. cbn [negb andb].
    unfold bind at 1.
    assert (He : eval_function sympy n "a" kwargs e = (Raise RuntimeError, e)).
    { destruct n as [|m]; [reflexivity|].
      cbn [eval_function]. rewrite (call_kw_free _ _ _ free_self_param).
      unfold bind at 1. cbv [self]. rewrite stored_a, free_a. cbn [andb].
      unfold bind at 1.
      change (filter _ (fargs Cycle.a_of__b)) with ["_b"].
      rewrite (mapM_raise_first _ _ _ RuntimeError e e); [reflexivity|].
      apply IH; [lia | now right]. }
    now rewrite He.
  - rewrite stored_b, free_b, (dict_in_get _ _ free_b). cbn [negb andb].
    rewrite bool_decide_eq_true_2 by eauto. cbn [negb andb].
    unfold bind at 1.
    assert (He : eval_function sympy n "b" kwargs e = (Raise RuntimeError, e)).
    { destruct n as [|m]; [reflexivity|].
      cbn [eval_function]. rewrite (call_kw_free _ _ _ free_self_param).
      unfold bind at 1. cbv [self]. rewrite stored_b, free_b. cbn [andb].
      unfold bind at 1.
      change (filter _ (fargs Cycle.b_of__a)) with ["_a"].
      rewrite (mapM_raise_first _ _ _ RuntimeError e e); [reflexivity|].
      apply IH; [lia | now left]. }
    now rewrite He.
Qed.

End PrefixedCycle.

Lemma foldM_raise_first {A S} (f : S -> A -> M S) s a l x e e' :
  f s a e = (Raise x, e') -> foldM f s (a :: l) e = (Raise x, e').
Proof. intros H. simpl. unfold bind. now rewrite H. Qed.

(** C6 (failing input): the three definitions [a] from [_b], [b] from [_a]
    and [z] from [a] are each accepted by the definition-time check, and on
    the store they give the propagation of the override [z = 1] does not
    return: whatever stack it is given, it ends in the interpreter's
    recursion error. *)
Theorem propagation_exhausts_stack_on_accepted_definitions :
  (lshift Fixture.no_sympy Fixture.depth [("a", Fun Cycle.a_of__b)]
          (init Fixture.SI true)).1 = Ok tt
  /\ (lshift Fixture.no_sympy Fixture.depth [("b", Fun Cycle.b_of__a)]
             Cycle.with__a).1 = Ok tt
  /\ (lshift Fixture.no_sympy Fixture.depth [("z", Fun Diverge.z_of_a)]
             Cycle.with__a__b).1 = Ok tt
  /\ forall sympy py_ne fuel,
       process_override sympy py_ne fuel Diverge.z_is_one None Diverge.cyclic
       = (Raise RuntimeError, Diverge.cyclic).
Proof.
  do 3 (split; [vm_compute; reflexivity|]).
  intros sympy py_ne fuel.
  assert (Ha : parameters Diverge.cyclic !! "a" = Some (SFun Cycle.a_of__b))
    by (vm_compute; reflexivity).
  assert (Hb : parameters Diverge.cyclic !! "b" = Some (SFun Cycle.b_of__a))
    by (vm_compute; reflexivity).
  assert (Hz : parameters Diverge.cyclic !! "z" = Some (SFun Diverge.z_of_a))
    by (vm_compute; reflexivity).
  destruct fuel as [|n]; [reflexivity|].
  rewrite process_override_S. cbn [dict_keys map fst Diverge.z_is_one].
  unfold Diverge.z_is_one.
  erewrite bind_run by (apply foldM_one, normalize_step_data; exact I).
  erewrite bind_raise; [reflexivity|].
  apply foldM_raise_first. unfold ratify_step. cbn [fst snd mem existsb].
  rewrite String.eqb_refl. cbn [orb]. unfold bind at 1. cbv [self]. rewrite Hz.
  assert (He : eval_function sympy n "z" [("z", Fixture.num 1)] Diverge.cyclic
               = (Raise RuntimeError, Diverge.cyclic)).
  { destruct n as [|m]; [reflexivity|].
    cbn [eval_function]. rewrite call_kw_free by reflexivity.
    unfold bind at 1. cbv [self]. rewrite Hz.
    change (dict_in "z" [("z", Fixture.num 1)]) with true.
    change (mem "z" (fargs Diverge.z_of_a)) with true. cbn [negb andb].
    unfold bind at 1.
    change (filter _ (fargs Diverge.z_of_a)) with ["a"; "z"].
    rewrite (mapM_raise_first _ _ _ RuntimeError Diverge.cyclic Diverge.cyclic);
      [reflexivity|].
    apply prefixed_cycle_exhausts_stack; [exact Ha | exact Hb | reflexivity | now left]. }
  unfold bind at 1. now rewrite He.
Qed.

(** ** Contradictions during propagation *)


Section Contradiction.

Variable sympy : Sympy.
Variable py_ne : pyval -> pyval -> bool.







End Contradiction.

(** ** Retrieval leaves the tables alone *)

Lemma keeps_pure {A} (c : M A) : pure_of c -> keeps_tables c.
Proof. intros H e. now rewrite H. Qed.

Lemma keeps_bind {A B} (c : M A) (k : A -> M B) :
  keeps_tables c -> (forall a, keeps_tables (k a)) -> keeps_tables (bind c k).
Proof.
  intros Hc Hk e. unfold bind. specialize (Hc e).
  destruct (c e) as [[a|x] e1]; simpl in *; [|exact Hc].
  rewrite <- Hc. apply Hk.
Qed.

Lemma keeps_mapM {A B} (f : A -> M B) l :
  (forall a, keeps_tables (f a)) -> keeps_tables (mapM f l).
Proof.
  intros Hf. induction l as [|a l IH]; simpl; [apply keeps_pure, pure_ret|].
  apply keeps_bind; [apply Hf|]. intros b.
  apply keeps_bind; [apply IH|]. intros bs. apply keeps_pure, pure_ret.
Qed.

Lemma keeps_foldM {A S} (f : S -> A -> M S) l :
  (forall s a, keeps_tables (f s a)) -> forall s, keeps_tables (foldM f s l).
Proof.
  intros Hf. induction l as [|a l IH]; intros s; simpl;
    [apply keeps_pure, pure_ret|].
  apply keeps_bind; [apply Hf | intros s'; apply IH].
Qed.

Lemma keeps_forM_ {A} (l : list A) (f : A -> M unit) :
  (forall a, keeps_tables (f a)) -> keeps_tables (forM_ l f).
Proof.
  intros Hf. induction l as [|a l IH]; simpl; [apply keeps_pure, pure_ret|].
  apply keeps_bind; [apply Hf | intros _; apply IH].
Qed.

Lemma keeps_call_kw {A B} names (kwargs : dict B) (c : M A) :
  keeps_tables c -> keeps_tables (call_kw names kwargs c).
Proof.
  intros H. unfold call_kw. destruct (existsb _ _); [apply keeps_pure, pure_raise | exact H].
Qed.

Lemma keeps_unit_scaling u : keeps_tables (unit_scaling u).
Proof.
  intros e. rewrite unit_scaling_run.
  destruct (cache_get u (scaling_cache e)); [reflexivity|].
  destruct (unit_scaling_direct u e).1; reflexivity.
Qed.

Lemma keeps_get_quantity v param unit scaled :
  keeps_tables (get_quantity v param unit scaled).
Proof.
  unfold get_quantity. apply keeps_bind.
  - destruct v as [[x|s|u|q|l]|f|f u];
      try (apply keeps_pure; first [apply pure_ret | apply pure_raise]).
    + apply keeps_bind; [apply keeps_pure, pure_self|]. intros e.
      apply keeps_bind.
      * apply keeps_pure.
        destruct unit as [un|]; [apply pure_get_unit|].
        destruct param as [p|]; [|apply pure_get_unit].
        destruct (parameters_spec e !! p); apply pure_get_unit.
      * intros u. apply keeps_bind; [apply keeps_unit_scaling|].
        intros s. apply keeps_pure, pure_ret.
    + apply keeps_bind; [apply keeps_pure, pure_self|]. intros e.
      apply keeps_bind.
      * apply keeps_pure.
        destruct unit as [un|]; [apply pure_get_unit|].
        destruct param as [p|]; [|apply pure_get_unit].
        destruct (parameters_spec e !! p); apply pure_get_unit.
      * intros u. apply keeps_bind; [apply keeps_unit_scaling|].
        intros s'. apply keeps_pure, pure_raise.
    + apply keeps_bind; [apply keeps_pure, pure_self|]. intros e.
      apply keeps_bind.
      * apply keeps_pure.
        destruct unit as [un|]; [apply pure_get_unit|].
        destruct param as [p|]; [|apply pure_get_unit].
        destruct (parameters_spec e !! p); apply pure_get_unit.
      * intros u'. apply keeps_bind; [apply keeps_unit_scaling|].
        intros s'. apply keeps_pure, pure_raise.
    + destruct l as [|m [|u [|]]];
        try (apply keeps_pure, pure_raise).
      apply keeps_bind; [|intros; apply keeps_pure, pure_ret].
      apply keeps_pure. unfold quantity_new.
      apply pure_bind; [apply pure_self|]. intros e.
      destruct m, u; try apply pure_raise; try apply pure_ret.
      destruct (units_get (units e) s); [apply pure_ret | apply pure_raise].
  - intros q. destruct scaled; simpl; [|apply keeps_pure, pure_ret].
    destruct q as [[x|s|u|q|l]|f|f u]; try (apply keeps_pure, pure_raise).
    apply keeps_bind; [apply keeps_unit_scaling|]. intros s.
    apply keeps_bind; [apply keeps_pure, pure_py_div|].
    intros x. apply keeps_pure, pure_ret.
Qed.

Lemma keeps_lift {A} (o : outcome A) : keeps_tables (lift o).
Proof. apply keeps_pure, pure_lift. Qed.

Lemma keeps_call f arguments : keeps_tables (call f arguments).
Proof.
  unfold call. destruct (as_data arguments);
    [apply keeps_lift | apply keeps_pure, pure_raise].
Qed.

Lemma keeps_getitem r i : keeps_tables (getitem r i).
Proof.
  unfold getitem. destruct (nth_error r i); apply keeps_pure;
    [apply pure_ret | apply pure_raise].
Qed.

Lemma keeps_inverse_step param r inverse ia :
  keeps_tables (inverse_step param r inverse ia).
Proof.
  unfold inverse_step. destruct (String.eqb _ param); [apply keeps_pure, pure_ret|].
  apply keeps_bind; [apply keeps_getitem|]. intros x.
  apply keeps_bind; [apply keeps_get_quantity|]. intros q.
  apply keeps_pure, pure_ret.
Qed.

Ltac keeps_leaf :=
  first [ apply keeps_pure, pure_ret | apply keeps_pure, pure_raise
        | apply keeps_pure, pure_self | apply keeps_get_quantity
        | apply keeps_call | apply keeps_getitem | apply keeps_lift ].

Section KeepsTables.

Variable sympy : Sympy.
Variable py_ne : pyval -> pyval -> bool.

Lemma keeps_retrieval fuel :
  (forall arg kwargs, keeps_tables (get_param sympy fuel arg kwargs))
  /\ (forall param kwargs, keeps_tables (eval_function sympy fuel param kwargs))
  /\ (forall arg kwargs, keeps_tables (eval_str sympy fuel arg kwargs)).
Proof.
  induction fuel as [|n (IHg & IHf & IHs)].
  - repeat split; intros; simpl; keeps_leaf.
  - repeat split.
    + intros arg kwargs. cbn [get_param]. apply keeps_call_kw.
      apply keeps_bind; [keeps_leaf|]. intros e.
      destruct (_ && _); [apply IHs|].
      destruct (dict_get _ kwargs); [keeps_leaf|].
      destruct (parameters e !! _) as [[q|f]|]; try keeps_leaf.
      apply keeps_bind; [apply IHf|]. intros vals.
      destruct (dict_get _ vals); keeps_leaf.
    + intros param kwargs. cbn [eval_function]. apply keeps_call_kw.
      apply keeps_bind; [keeps_leaf|]. intros e.
      destruct (parameters e !! param) as [[q|f]|]; try keeps_leaf.
      destruct (_ && _); [keeps_leaf|].
      apply keeps_bind; [apply keeps_mapM; intros; apply IHg|]. intros arguments.
      apply keeps_bind; [keeps_leaf|]. intros r.
      destruct (negb _).
      * apply keeps_bind; [keeps_leaf|]. intros x.
        apply keeps_bind; [keeps_leaf|]. intros q. keeps_leaf.
      * apply keeps_foldM. intros. apply keeps_inverse_step.
    + intros arg kwargs. cbn [eval_str]. apply keeps_call_kw.
      destruct (sympy_free_symbols sympy arg) as [fs|]; [|keeps_leaf].
      destruct (bool_decide _); [keeps_leaf|].
      intros e.
      match goal with
      | |- tables (match ?c e with _ => _ end).2 = _ =>
          assert (Hc : keeps_tables c)
      end.
      { apply keeps_bind.
        - apply keeps_foldM. intros params sym.
          apply keeps_bind; [apply IHg|]. intros param.
          destruct param as [[x|s|u|q|l]|f|f u]; try keeps_leaf;
            (apply keeps_bind; [apply IHg|]; intros v;
             destruct v as [d| |]; keeps_leaf).
        - intros params. apply keeps_bind; [keeps_leaf|]. intros v. keeps_leaf. }
      specialize (Hc e).
      match goal with
      | |- tables (match ?c e with _ => _ end).2 = _ =>
          destruct (c e) as [[v|[]] e1]; exact Hc
      end.
Qed.

Lemma keeps_get_param fuel arg kwargs : keeps_tables (get_param sympy fuel arg kwargs).
Proof. apply keeps_retrieval. Qed.

Lemma keeps_eval_function fuel param kwargs :
  keeps_tables (eval_function sympy fuel param kwargs).
Proof. apply keeps_retrieval. Qed.

Lemma keeps_eval_fun fuel f kwargs : keeps_tables (eval_fun sympy fuel f kwargs).
Proof.
  destruct fuel as [|n]; [simpl; keeps_leaf|]. unfold eval_fun.
  apply keeps_call_kw. apply keeps_bind.
  - destruct (fargs f) as [|a [|a' l]].
    + simpl. keeps_leaf.
    + apply keeps_bind; [apply keeps_get_param|]. intros; keeps_leaf.
    + apply keeps_foldM. intros. apply keeps_bind; [apply keeps_get_param|].
      intros; keeps_leaf.
  - intros params. apply keeps_bind.
    + apply keeps_mapM. intros x. destruct (dict_get _ params); keeps_leaf.
    + intros arguments. apply keeps_bind; [keeps_leaf|]. intros; keeps_leaf.
Qed.

Lemma keeps_normalize_step fuel restrict kwargs item :
  keeps_tables (normalize_step sympy fuel restrict kwargs item).
Proof.
  unfold normalize_step. destruct (mem _ _); [|keeps_leaf].
  destruct item.2 as [[x|s|u|q|l]|f|f u]; try keeps_leaf.
  - apply keeps_bind; [apply keeps_pure, pure_get_function|]. intros f.
    apply keeps_bind; [apply keeps_eval_fun|]. intros; keeps_leaf.
  - apply keeps_bind; [apply keeps_eval_fun|]. intros; keeps_leaf.
Qed.

Lemma keeps_reconcile kwargs new vals : keeps_tables (reconcile py_ne kwargs new vals).
Proof.
  unfold reconcile. apply keeps_forM_. intros kv.
  destruct (conflict _ _ _ _); keeps_leaf.
Qed.

Lemma keeps_ratify_step fuel restrict kwargs new item :
  keeps_tables (ratify_step sympy py_ne fuel restrict kwargs new item).
Proof.
  unfold ratify_step. destruct (mem _ _); [|keeps_leaf].
  apply keeps_bind; [keeps_leaf|]. intros e.
  destruct (parameters e !! _) as [[q|f]|]; try keeps_leaf.
  apply keeps_bind; [apply keeps_eval_function|]. intros vals.
  apply keeps_bind; [apply keeps_reconcile|]. intros; keeps_leaf.
Qed.

(** Propagation changes nothing of the state but the scaling cache,
    whether it returns or raises. *)
Lemma keeps_process_override fuel :
  forall kwargs restrict,
    keeps_tables (process_override sympy py_ne fuel kwargs restrict).
Proof.
  induction fuel as [|n IH]; intros kwargs restrict; [simpl; keeps_leaf|].
  rewrite process_override_S. cbv zeta.
  destruct (match restrict with Some r => r | None => dict_keys kwargs end);
    [keeps_leaf|].
  apply keeps_bind; [apply keeps_foldM; intros; apply keeps_normalize_step|].
  intros kwargs1.
  apply keeps_bind; [apply keeps_foldM; intros; apply keeps_ratify_step|].
  intros new. apply IH.
Qed.

End KeepsTables.

(** ** What a durable assignment touches *)

Lemma same_but_refl q e : same_but q e e.
Proof. split; [auto | reflexivity]. Qed.

Lemma same_but_trans q e1 e2 e3 :
  same_but q e1 e2 -> same_but q e2 e3 -> same_but q e1 e3.
Proof.
  intros [H1 T1] [H2 T2]. split; [|congruence].
  intros p Hp. destruct (H1 p Hp), (H2 p Hp). split; congruence.
Qed.

Lemma same_but_tables q e e' : tables e' = tables e -> same_but q e e'.
Proof.
  unfold tables. intros [= Hs Hp Hsc Hus Hu Hd]. split.
  - intros p _. now rewrite Hs, Hp.
  - now rewrite Hsc, Hus, Hu, Hd.
Qed.

Lemma touches_keeps {A} q (c : M A) : keeps_tables c -> touches_only q c.
Proof. intros H e. apply same_but_tables, H. Qed.

Lemma touches_bind {A B} q (c : M A) (k : A -> M B) :
  touches_only q c -> (forall a, touches_only q (k a)) -> touches_only q (bind c k).
Proof.
  intros Hc Hk e. unfold bind. specialize (Hc e).
  destruct (c e) as [[a|x] e1]; simpl in *; [|exact Hc].
  eapply same_but_trans; [exact Hc | apply Hk].
Qed.

Lemma touches_modify_parameters q v :
  touches_only q (modify (fun e => set_parameters (<[q := v]> (parameters e)) e)).
Proof.
  intros e. split; [|reflexivity]. intros p Hp. simpl.
  split; [|reflexivity]. apply lookup_insert_ne. congruence.
Qed.

Lemma touches_spec_one q u : touches_only q (spec [(q, VUnit u)]).
Proof.
  unfold spec. intros e. unfold call_kw.
  destruct (existsb _ _); [apply same_but_refl|].
  cbn [forM_]. unfold bind, spec_step, get_unit, self, modify, ret. simpl.
  destruct (parameters e !! q) as [[q'|f]|]; split; try reflexivity;
    intros p Hp; simpl; rewrite ?lookup_insert_ne by congruence; auto.
Qed.

Lemma touches_install sympy fuel q expr the_unit :
  pure_of the_unit -> touches_only q (install sympy fuel q expr the_unit).
Proof.
  intros Hu. unfold install.
  apply touches_bind; [apply touches_keeps, keeps_pure, pure_get_function|].
  intros f. apply touches_bind;
    [apply touches_keeps, keeps_pure, pure_check_function|].
  intros g. apply touches_bind; [apply touches_modify_parameters|].
  intros _. apply touches_bind; [apply touches_keeps, keeps_pure, Hu|].
  intros u. apply touches_spec_one.
Qed.

Lemma touches_set_one sympy fuel q val : touches_only q (set_one sympy fuel q val).
Proof.
  assert (Hq : forall v, touches_only q
            (x <- get_quantity v (Some q) None false ;;
             match x with
             | Val (VQuantity x) =>
                 modify (fun e => set_parameters (<[q := SQuantity x]> (parameters e)) e) ;;;
                 spec [(q, VUnit (qunits x))]
             | _ => raise TypeError
             end)).
  { intros v. apply touches_bind; [apply touches_keeps, keeps_get_quantity|].
    intros x. destruct x as [[]| |];
      try (apply touches_keeps, keeps_pure, pure_raise).
    apply touches_bind; [apply touches_modify_parameters|].
    intros _. apply touches_spec_one. }
  destruct val as [[x|s|u|x|[|[x|s|u|x|l] rest]]|f|f u]; simpl;
    try apply Hq;
    try (apply touches_install; apply pure_get_unit).
  - apply touches_keeps, keeps_pure, pure_raise.
  - apply touches_install. apply pure_bind; [|intros; apply pure_get_unit].
    unfold getitem. destruct (nth_error rest 0); [apply pure_ret | apply pure_raise].
Qed.

Lemma touches_set_single sympy fuel q val :
  touches_only q (set sympy fuel [(q, val)]).
Proof.
  unfold set. intros e. unfold call_kw.
  destruct (existsb _ _); [apply same_but_refl|].
  revert e. apply touches_bind.
  - apply touches_keeps, keeps_pure. intros e. unfold check_valid_params.
    destruct (filter _ _); reflexivity.
  - intros _. cbn [forM_]. apply touches_bind;
      [|intros; apply touches_keeps, keeps_pure, pure_ret].
    intros e. unfold except_ValueError. cbn [fst snd].
    pose proof (touches_set_one sympy fuel q val e) as H.
    destruct (set_one sympy fuel q val e) as [[[]|[]] e1]; exact H.
Qed.

(** ** Durable updates *)

Section DurableUpdate.

Variable sympy : Sympy.
Variable py_ne : pyval -> pyval -> bool.

Lemma touches_update_step fuel item :
  touches_only item.1 (update_step sympy fuel item).
Proof.
  unfold update_step. apply touches_bind;
    [apply touches_keeps, keeps_pure, pure_self|].
  intros e. destruct (parameters e !! item.1) as [[q|f]|].
  - destruct item. apply touches_set_single.
  - apply touches_keeps, keeps_pure, pure_ret.
  - destruct item. apply touches_set_single.
Qed.

Lemma same_but_agree q p e e' : same_but q e e' -> p <> q -> agree_on p e e'.
Proof. intros [H T] Hp. destruct (H p Hp). repeat split; assumption. Qed.

Lemma agree_on_trans p e1 e2 e3 :
  agree_on p e1 e2 -> agree_on p e2 e3 -> agree_on p e1 e3.
Proof. intros (?&?&?) (?&?&?). repeat split; congruence. Qed.

Lemma agree_on_refl p e : agree_on p e e.
Proof. repeat split. Qed.

Lemma update_loop_frame fuel items :
  forall e r e' p,
    forM_ items (update_step sympy fuel) e = (r, e') ->
    ~ In p (dict_keys items) -> agree_on p e e'.
Proof.
  induction items as [|item items IH]; intros e r e' p H Hp.
  - injection H as _ <-. apply agree_on_refl.
  - simpl in H, Hp. unfold bind in H.
    pose proof (touches_update_step fuel item e) as Ht.
    destruct (update_step sympy fuel item e) as [[[]|x] e1]; simpl in Ht.
    + eapply agree_on_trans.
      * eapply same_but_agree; [exact Ht | intuition congruence].
      * eapply IH; [exact H | intuition].
    + injection H as _ <-. eapply same_but_agree; [exact Ht | intuition congruence].
Qed.

(** In a loop of [__update] that goes through, every assignment to a name
    that no function holds has been made by [__set], on a state in which the
    name has the entries it had before the loop, and the entries [__set] left
    for the name are those of the final state. *)
Lemma update_loop_applies fuel items :
  forall e e',
    NoDup (dict_keys items) ->
    forM_ items (update_step sympy fuel) e = (Ok tt, e') ->
    forall p v, In (p, v) items ->
      (forall f, parameters e !! p <> Some (SFun f)) ->
      exists ei ei',
        agree_on p e ei
        /\ set sympy fuel [(p, v)] ei = (Ok tt, ei')
        /\ agree_on p ei' e'.
Proof.
  induction items as [|item items IH]; intros e e' Hnd H p v Hin Hf;
    [contradiction|].
  simpl in Hnd. apply NoDup_cons in Hnd as [Hfresh Hnd].
  rewrite list_elem_of_In in Hfresh.
  simpl in H. unfold bind in H.
  pose proof (touches_update_step fuel item e) as Ht.
  destruct (update_step sympy fuel item e) as [[[]|x] e1] eqn:Estep;
    [|discriminate]. simpl in Ht.
  destruct Hin as [-> | Hin].
  - exists e, e1. split; [apply agree_on_refl|]. split.
    + unfold update_step, bind, self in Estep. simpl in Estep.
      destruct (parameters e !! p) as [[q|f]|] eqn:Ep;
        [exact Estep | exfalso; now apply (Hf f) | exact Estep].
    + eapply update_loop_frame; [exact H | exact Hfresh].
  - assert (Hne : p <> item.1).
    { intros ->. apply Hfresh. change (In (fst item) (map fst items)).
      apply in_map_iff. exists (item.1, v). split; [reflexivity | exact Hin]. }
    pose proof (same_but_agree _ _ _ _ Ht Hne) as Hag.
    destruct (IH e1 e' Hnd H p v Hin) as (ei & ei' & Ha & Hs & Hb).
    { intros f. destruct Hag as (Hp & _). rewrite Hp. apply Hf. }
    exists ei, ei'. split; [|split; assumption].
    eapply agree_on_trans; eassumption.
Qed.

End DurableUpdate.

(** ** Dictionaries keep their keys apart *)

Lemma dict_keys_set {A} k (v : A) d :
  dict_keys (dict_set k v d) =
  if dict_in k d then dict_keys d else (dict_keys d ++ [k])%list.
Proof.
  unfold dict_in. induction d as [|[k' v'] d IH]; simpl; [reflexivity|].
  destruct (String.eqb k k') eqn:E.
  - apply String.eqb_eq in E as ->. reflexivity.
  - simpl. rewrite IH. now destruct (dict_get k d).
Qed.

Lemma dict_in_keys {A} k (d : dict A) : dict_in k d = true <-> In k (dict_keys d).
Proof.
  unfold dict_in. induction d as [|[k' v'] d IH]; simpl; [intuition discriminate|].
  destruct (String.eqb k k') eqn:E.
  - apply String.eqb_eq in E as ->. intuition.
  - apply String.eqb_neq in E. rewrite IH. intuition congruence.
Qed.

Lemma NoDup_dict_set {A} k (v : A) d :
  NoDup (dict_keys d) -> NoDup (dict_keys (dict_set k v d)).
Proof.
  intros Hd. rewrite dict_keys_set. destruct (dict_in k d) eqn:E; [exact Hd|].
  apply NoDup_app. split; [exact Hd|]. split; [|apply NoDup_singleton].
  intros x Hx Hk. apply list_elem_of_singleton in Hk as ->.
  apply list_elem_of_In, dict_in_keys in Hx. congruence.
Qed.

Lemma NoDup_dict_update {A} (new d : dict A) :
  NoDup (dict_keys d) -> NoDup (dict_keys (dict_update d new)).
Proof.
  unfold dict_update. revert d. induction new as [|[k v] new IH]; intros d Hd;
    simpl; [exact Hd|].
  apply IH. now apply NoDup_dict_set.
Qed.

Lemma foldM_invariant {A S} (P : S -> Prop) (f : S -> A -> M S) l :
  (forall s a e s' e', P s -> f s a e = (Ok s', e') -> P s') ->
  forall s e s' e', P s -> foldM f s l e = (Ok s', e') -> P s'.
Proof.
  intros Hf. induction l as [|a l IH]; intros s e s' e' Hs H; simpl in H.
  - injection H as <- _. exact Hs.
  - unfold bind in H. destruct (f s a e) as [[s1|x] e1] eqn:E; [|discriminate].
    eapply IH; [|exact H]. eapply Hf; eassumption.
Qed.

Section KeysApart.

Variable sympy : Sympy.
Variable py_ne : pyval -> pyval -> bool.

Lemma NoDup_normalize_step fuel restrict kwargs item e kwargs' e' :
  NoDup (dict_keys kwargs) ->
  normalize_step sympy fuel restrict kwargs item e = (Ok kwargs', e') ->
  NoDup (dict_keys kwargs').
Proof.
  intros Hd. unfold normalize_step. destruct (mem _ _); [|now intros [= <- _]].
  destruct item.2 as [[x|s|u|q|l]|f|f u]; try (now intros [= <- _]).
  - intros H. bind_inv H as f e1 Hf. bind_inv H as v e2 Hv.
    injection H as <- _. now apply NoDup_dict_set.
  - intros H. bind_inv H as v e2 Hv.
    injection H as <- _. now apply NoDup_dict_set.
Qed.

Lemma NoDup_process_override fuel :
  forall kwargs restrict e kwargs' e',
    NoDup (dict_keys kwargs) ->
    process_override sympy py_ne fuel kwargs restrict e = (Ok kwargs', e') ->
    NoDup (dict_keys kwargs').
Proof.
  induction fuel as [|n IH]; intros kwargs restrict e kwargs' e' Hd H;
    [discriminate|].
  rewrite process_override_S in H. cbv zeta in H.
  destruct (match restrict with Some r => r | None => dict_keys kwargs end).
  - injection H as <- _. exact Hd.
  - bind_inv H as kwargs1 e1 Hn. bind_inv H as new e2 Hr.
    eapply IH; [|exact H]. apply NoDup_dict_update.
    eapply (foldM_invariant (fun d => NoDup (dict_keys d))); [|exact Hd|exact Hn].
    intros d a e0 d' e0' Hs Hstep. eapply NoDup_normalize_step; eassumption.
Qed.

End KeysApart.

Section UpdateOutcomes.

Variable sympy : Sympy.
Variable py_ne : pyval -> pyval -> bool.

Lemma check_valid_params_run params e :
  check_valid_params params e =
  match filter (fun p => is_valid_param p = false) params with
  | [] => (Ok tt, e)
  | bad => (Raise (KeyError (InvalidParameters bad)), e)
  end.
Proof. unfold check_valid_params. destruct (filter _ _); reflexivity. Qed.

(** What a durable update does when it stops before the loop and when it
    goes through. *)
Lemma update_stops_before_storing_or_applies fuel kwargs e :
  ((exists p, In p (dict_keys kwargs) /\ is_valid_param p = false) ->
   exists x, update sympy py_ne fuel kwargs e = (Raise x, e))
  /\ (forall x e1,
        process_override sympy py_ne fuel kwargs None e = (Raise x, e1) ->
        exists y, (update sympy py_ne fuel kwargs e).1 = Raise y
                  /\ tables (update sympy py_ne fuel kwargs e).2 = tables e)
  /\ (forall e', NoDup (dict_keys kwargs) ->
        update sympy py_ne fuel kwargs e = (Ok tt, e') ->
        exists kwargs' e1,
          process_override sympy py_ne fuel kwargs None e = (Ok kwargs', e1)
          /\ tables e1 = tables e
          /\ forall p v, In (p, v) kwargs' ->
               (forall f, parameters e !! p <> Some (SFun f)) ->
               exists ei ei',
                 agree_on p e ei
                 /\ set sympy fuel [(p, v)] ei = (Ok tt, ei')
                 /\ agree_on p ei' e').
Proof.
  unfold update, call_kw.
  destruct (existsb _ _) eqn:Eself.
  { repeat split.
    - eexists; reflexivity.
    - intros. eexists; split; reflexivity.
    - intros; discriminate. }
  pose proof (check_valid_params_run (dict_keys kwargs) e) as Hcv.
  destruct (filter _ (dict_keys kwargs)) as [|b bad] eqn:Ebad.
  2:{ rewrite (bind_raise _ _ _ _ _ Hcv). repeat split.
      - eexists; reflexivity.
      - intros. eexists; split; reflexivity.
      - intros; discriminate. }
  rewrite (bind_run _ _ _ _ _ Hcv).
  repeat split.
  - intros (p & Hin & Hp). exfalso.
    assert (Hf : p ∈ filter (fun p => is_valid_param p = false) (dict_keys kwargs)).
    { apply list_elem_of_filter. split; [exact Hp | now apply list_elem_of_In]. }
    rewrite Ebad in Hf. now apply not_elem_of_nil in Hf.
  - intros x e1 Hp. unfold bind. rewrite Hp. eexists. split; [reflexivity|].
    simpl. pose proof (keeps_process_override sympy py_ne fuel kwargs None e) as Hk.
    now rewrite Hp in Hk.
  - intros e' Hnd H. bind_inv H as kwargs' e1 Hp.
    exists kwargs', e1. split; [exact Hp|].
    pose proof (keeps_process_override sympy py_ne fuel kwargs None e) as Hk.
    rewrite Hp in Hk. simpl in Hk. split; [exact Hk|].
    intros p v Hin Hf.
    assert (Hnd' : NoDup (dict_keys kwargs'))
      by (eapply NoDup_process_override; eassumption).
    destruct (update_loop_applies sympy fuel kwargs' e1 e' Hnd' H p v Hin)
      as (ei & ei' & Ha & Hs & Hb).
    { intros f. unfold tables in Hk. injection Hk as _ Hpar _ _ _ _.
      rewrite Hpar. apply Hf. }
    exists ei, ei'. split; [|split; assumption].
    eapply agree_on_trans; [|exact Ha].
    unfold tables in Hk. injection Hk as Hspec Hpar Hsc Hus Hu Hd.
    repeat split; congruence.
Qed.

Lemma forM__app {A} (f : A -> M unit) l1 l2 e :
  forM_ (l1 ++ l2)%list f e = bind (forM_ l1 f) (fun _ => forM_ l2 f) e.
Proof.
  revert e. induction l1 as [|a l1 IH]; intros e; simpl; [reflexivity|].
  unfold bind. destruct (f a e) as [[[]|x] e1]; [|reflexivity].
  rewrite IH. reflexivity.
Qed.

(** When [__set] raises on an entry, the entries before it stay stored. *)
Lemma update_stops_at_failure fuel kwargs e kwargs' e1 pre item post e2 x e3 :
  NoDup (dict_keys kwargs) ->
  dict_in "self" kwargs = false ->
  (forall p, In p (dict_keys kwargs) -> is_valid_param p = true) ->
  process_override sympy py_ne fuel kwargs None e = (Ok kwargs', e1) ->
  kwargs' = (pre ++ item :: post)%list ->
  forM_ pre (update_step sympy fuel) e1 = (Ok tt, e2) ->
  update_step sympy fuel item e2 = (Raise x, e3) ->
  update sympy py_ne fuel kwargs e = (Raise x, e3)
  /\ forall p v, In (p, v) pre ->
       (forall f, parameters e !! p <> Some (SFun f)) ->
       exists ei ei',
         agree_on p e ei
         /\ set sympy fuel [(p, v)] ei = (Ok tt, ei')
         /\ agree_on p ei' e3.
Proof.
  intros Hnd Hself Hvalid Hp -> Hpre Hitem.
  assert (Hnd' : NoDup (dict_keys (pre ++ item :: post)%list))
    by (eapply NoDup_process_override; eassumption).
  pose proof (keeps_process_override sympy py_ne fuel kwargs None e) as Hk.
  rewrite Hp in Hk. simpl in Hk. split.
  - unfold update, call_kw. cbn [existsb]. rewrite Hself. cbn [orb].
    pose proof (check_valid_params_run (dict_keys kwargs) e) as Hcv.
    destruct (filter _ (dict_keys kwargs)) as [|b bad] eqn:Ebad.
    2:{ exfalso. assert (Hb : b ∈ filter (fun p => is_valid_param p = false)
                                  (dict_keys kwargs))
          by (rewrite Ebad; left).
        apply list_elem_of_filter in Hb as [Hb Hin].
        apply list_elem_of_In in Hin. rewrite (Hvalid b Hin) in Hb. discriminate. }
    rewrite (bind_run _ _ _ _ _ Hcv), (bind_run _ _ _ _ _ Hp).
    rewrite forM__app, (bind_run _ _ _ _ _ Hpre). simpl.
    unfold bind. now rewrite Hitem.
  - intros p v Hin Hf.
    unfold dict_keys in Hnd'. rewrite map_app in Hnd'.
    apply NoDup_app in Hnd' as (Hndpre & Hdisj & Hndpost).
    destruct (update_loop_applies sympy fuel pre e1 e2 Hndpre Hpre p v Hin)
      as (ei & ei' & Ha & Hs & Hb).
    { intros f. unfold tables in Hk. injection Hk as _ Hpar _ _ _ _.
      rewrite Hpar. apply Hf. }
    exists ei, ei'. split; [|split; [exact Hs|]].
    + eapply agree_on_trans; [|exact Ha].
      unfold tables in Hk. injection Hk as Hspec Hpar Hsc Hus Hu Hd.
      repeat split; congruence.
    + eapply agree_on_trans; [exact Hb|].
      pose proof (touches_update_step sympy fuel item e2) as Ht.
      rewrite Hitem in Ht. simpl in Ht.
      eapply same_but_agree; [exact Ht|].
      intros ->. apply (Hdisj item.1).
      * apply list_elem_of_In, in_map_iff. exists (item.1, v). auto.
      * simpl. left.
Qed.

(** C2, as the code has it: a durable update with an invalid name raises
    and leaves the state as it was; one whose propagation raises also raises
    and leaves everything but the scaling cache as it was; in one that
    returns, every assignment of the propagated set to a name that no
    function holds has been made by [__set] and its effect on the name is
    that of the final state; and in one where [__set] raises on an entry, the
    assignments made before that entry are likewise in the final state. *)
Theorem durable_update_outcomes fuel kwargs e :
  ((exists p, In p (dict_keys kwargs) /\ is_valid_param p = false) ->
   exists x, update sympy py_ne fuel kwargs e = (Raise x, e))
  /\ (forall x e1,
        process_override sympy py_ne fuel kwargs None e = (Raise x, e1) ->
        exists y, (update sympy py_ne fuel kwargs e).1 = Raise y
                  /\ tables (update sympy py_ne fuel kwargs e).2 = tables e)
  /\ (forall e', NoDup (dict_keys kwargs) ->
        update sympy py_ne fuel kwargs e = (Ok tt, e') ->
        exists kwargs' e1,
          process_override sympy py_ne fuel kwargs None e = (Ok kwargs', e1)
          /\ tables e1 = tables e
          /\ forall p v, In (p, v) kwargs' ->
               (forall f, parameters e !! p <> Some (SFun f)) ->
               exists ei ei',
                 agree_on p e ei
                 /\ set sympy fuel [(p, v)] ei = (Ok tt, ei')
                 /\ agree_on p ei' e')
  /\ (forall kwargs' e1 pre item post e2 x e3,
        NoDup (dict_keys kwargs) ->
        dict_in "self" kwargs = false ->
        (forall p, In p (dict_keys kwargs) -> is_valid_param p = true) ->
        process_override sympy py_ne fuel kwargs None e = (Ok kwargs', e1) ->
        kwargs' = (pre ++ item :: post)%list ->
        forM_ pre (update_step sympy fuel) e1 = (Ok tt, e2) ->
        update_step sympy fuel item e2 = (Raise x, e3) ->
        update sympy py_ne fuel kwargs e = (Raise x, e3)
        /\ forall p v, In (p, v) pre ->
             (forall f, parameters e !! p <> Some (SFun f)) ->
             exists ei ei',
               agree_on p e ei
               /\ set sympy fuel [(p, v)] ei = (Ok tt, ei')
               /\ agree_on p ei' e3).
Proof.
  destruct (update_stops_before_storing_or_applies fuel kwargs e) as (H1 & H2 & H3).
  split; [exact H1|]. split; [exact H2|]. split; [exact H3|].
  intros. eapply update_stops_at_failure; eassumption.
Qed.

End UpdateOutcomes.

(** C2 (as stated, refuted): a request with one well-formed and one
    malformed value raises, and yet the well-formed assignment made before
    it stays in the store; whichever of the two names the dictionary yields
    first, one of the two requests behaves so. *)
Lemma durable_update_partially_applied :
  let fresh := init Fixture.SI true in
  let run kwargs := update Fixture.no_sympy Fixture.structural_ne Fixture.depth
                      kwargs fresh in
  (parameters fresh !! "a" = None /\ parameters fresh !! "b" = None)
  /\ ((run Partial.a_then_b).1 = Raise (ValueError (CouldNotAdd "b" BadLength))
      /\ parameters (run Partial.a_then_b).2 !! "a"
         = Some (SQuantity (mkQuantity 1 Fixture.constant))
      /\ parameters (run Partial.a_then_b).2 !! "b" = None)
  /\ ((run Partial.b_then_a).1 = Raise (ValueError (CouldNotAdd "a" BadLength))
      /\ parameters (run Partial.b_then_a).2 !! "b"
         = Some (SQuantity (mkQuantity 1 Fixture.constant))
      /\ parameters (run Partial.b_then_a).2 !! "a" = None).
Proof.
  cbv zeta. repeat split; vm_compute; try reflexivity;
    do 2 f_equal; f_equal; now apply Qc_is_canon.
Qed.

(** ** Inverse evaluation *)

Lemma dict_get_set_eq {A} k (v : A) d : dict_get k (dict_set k v d) = Some v.
Proof.
  induction d as [|[k' v'] d IH]; simpl.
  - now rewrite String.eqb_refl.
  - destruct (String.eqb k k') eqn:E; simpl.
    + now rewrite String.eqb_refl.
    + now rewrite E.
Qed.

Lemma dict_get_set_ne {A} k k' (v : A) d :
  k' <> k -> dict_get k' (dict_set k v d) = dict_get k' d.
Proof.
  intros Hne. induction d as [|[k0 v0] d IH]; simpl.
  - destruct (String.eqb k' k) eqn:E; [|reflexivity].
    apply String.eqb_eq in E. congruence.
  - destruct (String.eqb k k0) eqn:E; simpl.
    + apply String.eqb_eq in E as <-.
      destruct (String.eqb k' k) eqn:E'; [|reflexivity].
      apply String.eqb_eq in E'. congruence.
    + destruct (String.eqb k' k0); [reflexivity | exact IH].
Qed.

Lemma unit_for_tables e e' a u : tables e' = tables e -> unit_for e a u -> unit_for e' a u.
Proof.
  unfold tables, unit_for. intros [= Hs _ _ _ Hu _]. now rewrite Hs, Hu.
Qed.

Lemma get_unit_name_Ok name e u e' :
  get_unit (VStr name) e = (Ok u, e') -> units_get (units e) name = Some u.
Proof.
  unfold get_unit, bind, self. simpl.
  destruct (units_get (units e) name); [|discriminate].
  unfold ret. congruence.
Qed.

Lemma get_quantity_tagged x a e q e' :
  get_quantity (Val x) (Some a) None false e = (Ok q, e') -> tagged e a x q.
Proof.
  unfold get_quantity. intros H. bind_inv H as q' e1 Hq.
  simpl in H. injection H as <- <-.
  destruct x as [m|s|u|y|l]; simpl.
  - bind_inv Hq as e0 e2 Hself. injection Hself as <- <-.
    bind_inv Hq as u e2 Hu. bind_inv Hq as s e3 Hs. injection Hq as <- _.
    exists s, u. split; [|reflexivity]. unfold unit_for.
    destruct (parameters_spec e !! a) as [s0|].
    + cbv in Hu. congruence.
    + now apply get_unit_name_Ok in Hu.
  - bind_inv Hq as e0 e2 Hself. bind_inv Hq as u e3 Hu. bind_inv Hq as s' e4 Hs.
    discriminate.
  - bind_inv Hq as e0 e2 Hself. bind_inv Hq as u' e3 Hu. bind_inv Hq as s' e4 Hs.
    discriminate.
  - injection Hq as <- _. reflexivity.
  - destruct l as [|m [|u [|]]]; try discriminate.
    bind_inv Hq as y e2 Hy. injection Hq as <- _. eauto.
Qed.

Lemma inverse_fold param r l :
  forall k acc e vals e',
    NoDup l ->
    foldM (inverse_step param r) acc (enumerate_from k l) e = (Ok vals, e') ->
    (forall b, ~ In b l -> dict_get b vals = dict_get b acc)
    /\ (forall j a, nth_error l j = Some a -> get_pam_name a <> param ->
          exists x q ei,
            nth_error r (k + j) = Some x
            /\ tables ei = tables e
            /\ (get_quantity (Val x) (Some (get_pam_name a)) None false ei).1 = Ok q
            /\ dict_get a vals = Some q).
Proof.
  induction l as [|a l IH]; intros k acc e vals e' Hnd H.
  - injection H as <- _. split; [reflexivity|]. intros [|j] b; discriminate.
  - apply NoDup_cons in Hnd as [Hfresh Hnd]. rewrite list_elem_of_In in Hfresh.
    cbn [enumerate_from foldM] in H. bind_inv H as acc1 e1 Hstep.
    pose proof (keeps_inverse_step param r acc (k, a) e) as Hk.
    rewrite Hstep in Hk. simpl in Hk.
    destruct (IH (S k) acc1 e1 vals e' Hnd H) as [Hout Hin].
    unfold inverse_step in Hstep. cbn [fst snd] in Hstep.
    destruct (String.eqb (get_pam_name a) param) eqn:Ep.
    + injection Hstep as <- <-. split.
      * intros b Hb. apply Hout. simpl in Hb. intuition.
      * intros [|j] b Hb Hne; simpl in Hb.
        -- injection Hb as <-. apply String.eqb_eq in Ep. congruence.
        -- destruct (Hin j b Hb Hne) as (x & q & ei & Hx & Ht & Hq & Hv).
           exists x, q, ei. replace (k + S j)%nat with (S k + j)%nat by lia. auto.
    + bind_inv Hstep as x e2 Hx. bind_inv Hstep as q e3 Hq.
      injection Hstep as <- <-.
      unfold getitem in Hx. destruct (nth_error r k) as [x'|] eqn:Ex; [|discriminate].
      injection Hx as -> <-. split.
      * intros b Hb. rewrite Hout by (simpl in Hb; intuition).
        apply dict_get_set_ne. simpl in Hb. intuition congruence.
      * intros [|j] b Hb Hne; simpl in Hb.
        -- injection Hb as <-. exists x, q, e. rewrite Nat.add_0_r.
           repeat split; [exact Ex | now rewrite Hq |].
           rewrite (Hout a Hfresh). apply dict_get_set_eq.
        -- destruct (Hin j b Hb Hne) as (x0 & q0 & ei & Hx0 & Ht & Hq0 & Hv).
           exists x0, q0, ei. replace (k + S j)%nat with (S k + j)%nat by lia.
           repeat split; try assumption. congruence.
Qed.

Lemma filter_target_kept param (kwargs : dict pyval) (args : list string) :
  dict_in param kwargs = true ->
  filter (fun arg => ¬ (arg = param ∧ dict_in arg kwargs = false)) args = args.
Proof.
  intros Hin. induction args as [|a args IH]; [reflexivity|].
  rewrite filter_cons, IH. rewrite decide_True; [reflexivity|].
  intros [-> Hf]. congruence.
Qed.

Lemma call_kw_Ok {A B} names (kwargs : dict B) (body : M A) e a e' :
  call_kw names kwargs body e = (Ok a, e') -> body e = (Ok a, e').
Proof. unfold call_kw. destruct (existsb _ _); [discriminate | auto]. Qed.

(** C4, as the code has it: when the function stored for [p] declares the
    target last, as in [def f(<pam>,<pam>,<param>=None)], and inverse
    evaluation returns, every argument was evaluated and the function was
    called on the results; for the [i]-th of the other arguments, when it is
    written without prefix, the mapping holds under its name the [i]-th
    element of the returned sequence as [__get_quantity] renders it for that
    parameter: a quantity as it is, a bare number as a scaled value in the
    unit declared for the parameter. *)
Theorem inverse_evaluation_by_position sympy n p f kwargs e vals e' others t :
  parameters e !! p = Some (SFun f) ->
  dict_in p kwargs = true ->
  NoDup (fargs f) ->
  fargs f = (others ++ [t])%list -> get_pam_name t = p ->
  eval_function sympy (S n) p kwargs e = (Ok vals, e') ->
  exists arguments rv e1,
    mapM (fun arg => get_param sympy n arg kwargs) (fargs f) e = (Ok arguments, e1)
    /\ (call f arguments e1).1 = Ok rv
    /\ forall i a, nth_error others i = Some a -> is_prefixed a = false -> a <> p ->
         exists x q ei,
           nth_error (as_seq rv) i = Some x
           /\ tables ei = tables e
           /\ (get_quantity (Val x) (Some a) None false ei).1 = Ok q
           /\ tagged e a x q
           /\ dict_get a vals = Some q.
Proof.
  intros Hf Hin Hnd Hargs Ht H. cbn [eval_function] in H.
  apply call_kw_Ok in H. bind_inv H as e0 e0' Hself. injection Hself as <- <-.
  rewrite Hf, Hin in H. cbn [andb negb] in H.
  destruct (_ && _); [discriminate|].
  rewrite (filter_target_kept _ _ _ Hin) in H.
  bind_inv H as arguments e1 Hmap. bind_inv H as rv e2 Hcall.
  pose proof (keeps_mapM (fun arg => get_param sympy n arg kwargs) (fargs f)
                (fun a => keeps_get_param sympy n a kwargs) e) as Hk1.
  rewrite Hmap in Hk1. simpl in Hk1.
  assert (e2 = e1) as ->.
  { unfold call in Hcall. destruct (as_data arguments); [|discriminate].
    unfold lift in Hcall. congruence. }
  exists arguments, rv, e1. split; [exact Hmap|]. split; [now rewrite Hcall|].
  intros i a Hi Hpre Hne.
  destruct (inverse_fold p (as_seq rv) (fargs f) 0 [] e1 vals e' Hnd H) as [_ Hpos].
  assert (Hname : get_pam_name a = a) by now apply get_pam_name_plain.
  destruct (Hpos i a) as (x & q & ei & Hx & Hti & Hq & Hv).
  { rewrite Hargs. rewrite nth_error_app1; [exact Hi|].
    apply nth_error_Some. congruence. }
  { congruence. }
  rewrite Hname in Hq. exists x, q, ei.
  assert (Hte : tables ei = tables e) by congruence.
  repeat split; try assumption.
  destruct (get_quantity (Val x) (Some a) None false ei) as [[q'|y] ei'] eqn:Eq;
    [|discriminate]. simpl in Hq. injection Hq as ->.
  apply get_quantity_tagged in Eq.
  destruct x as [m|s|u|y|l]; simpl in *; try assumption.
  destruct Eq as (s & u & Hu & ->). exists s, u. split; [|reflexivity].
  eapply unit_for_tables; [|exact Hu]. congruence.
Qed.

(** C4 (as stated, refuted): the function stored for [p] declares [p]
    first and [x] second, and given [p = 5] returns the one-element sequence
    [[6]], whose length and order are those of the declared arguments without
    the target; inverse evaluation does not map its element to [x] but looks
    for the element at the position of [x] among all the arguments and
    raises [IndexError]. *)
Lemma inverse_evaluation_target_first :
  parameters Inverse.store_target_first !! "p" = Some (SFun Inverse.target_first)
  /\ fbody Inverse.target_first [VNum (Qc_of_Z 5); VNum 1]
     = Ok (VSeq [VNum (Qc_of_Z 5 + 1)])
  /\ (eval_function Fixture.no_sympy Fixture.depth "p" [("p", Fixture.num (Qc_of_Z 5))]
        Inverse.store_target_first).1 = Raise IndexError.
Proof. repeat split; vm_compute; reflexivity. Qed.

(** The mapping is keyed by the arguments as the function declares them:
    what is derived for the argument [_x] is held under [_x], and nothing is
    held under [x]. *)
Lemma inverse_evaluation_keys_as_declared :
  match (eval_function Fixture.no_sympy Fixture.depth "z"
           [("z", Fixture.num (Qc_of_Z 5))] Inverse.store_prefixed).1 with
  | Ok vals => dict_keys vals = ["_x"] /\ dict_get "x" vals = None
  | Raise _ => False
  end.
Proof. vm_compute. split; reflexivity. Qed.

(** ** The cycle check runs to completion *)

Lemma held_by_function_spec e a :
  a ∈ held_by_function e <-> exists g, parameters e !! a = Some (SFun g).
Proof.
  unfold held_by_function. rewrite elem_of_dom. split.
  - intros [st Hst]. apply map_lookup_filter_Some in Hst as [Hst Hf].
    destruct st as [q|g]; [discriminate | eauto].
  - intros [g Hg]. exists (SFun g). apply map_lookup_filter_Some.
    split; [exact Hg | reflexivity].
Qed.

Lemma find_none_not_mem args fb arg :
  find (fun x => mem x args) fb = None -> In arg args -> ~ In arg fb.
Proof.
  intros Hfind Hin Hfb. apply (find_none _ _ Hfind) in Hfb.
  unfold mem in Hfb.
  assert (existsb (String.eqb arg) args = true).
  { apply existsb_exists. exists arg. split; [exact Hin | apply String.eqb_refl]. }
  congruence.
Qed.

Lemma forM__no_stack_error {A} (f : A -> M unit) (l : list A) e :
  (forall a, pure_of (f a)) ->
  (forall a, In a l -> (f a e).1 <> Raise RuntimeError) ->
  (forM_ l f e).1 <> Raise RuntimeError.
Proof.
  intros Hp Hf. induction l as [|a l IH]; simpl; [discriminate|].
  unfold bind. pose proof (Hp a e) as Ha. pose proof (Hf a (or_introl eq_refl)) as Hr.
  destruct (f a e) as [[[]|x] e1]; simpl in *; subst.
  - apply IH. intros b Hb. apply Hf. now right.
  - congruence.
Qed.

(** With a stack deeper than the number of parameters held by a function
    that are not yet on the path, the check returns or raises its own error:
    it does not run out of stack. *)
Lemma check_function_completes n :
  forall param f forbidden e,
    (size (held_by_function e ∖ list_to_set (default [] forbidden ++ [param])%list)
     < n)%nat ->
    (check_function n param f forbidden e).1 <> Raise RuntimeError.
Proof.
  induction n as [|n IH]; intros param f forbidden e Hsize; [lia|].
  cbn [check_function]. unfold bind at 1.
  destruct (check_forbidden _ forbidden e) as [[fb|x] e1] eqn:Ecf.
  2:{ simpl. unfold check_forbidden in Ecf. destruct forbidden as [fb|]; [|discriminate].
      destruct (find _ fb); [|discriminate]. injection Ecf as <- _. discriminate. }
  assert (e1 = e) as -> by (eapply pure_run; [apply pure_check_forbidden | exact Ecf]).
  assert (Hfb : fb = default [] forbidden
                /\ forall arg, In arg (filter (fun a => a ≠ param) (fargs f)) -> ~ In arg fb).
  { unfold check_forbidden in Ecf. destruct forbidden as [fb'|]; simpl.
    - destruct (find _ fb') eqn:Efind; [discriminate|]. injection Ecf as <-.
      split; [reflexivity|]. intros arg Harg. eapply find_none_not_mem; eassumption.
    - injection Ecf as <-. split; [reflexivity | auto]. }
  destruct Hfb as [-> Hfresh].
  unfold bind.
  pose proof (forM__no_stack_error
                (check_arg (check_function n) (default [] forbidden ++ [param])%list)
                (filter (fun a => a ≠ param) (fargs f)) e) as Hloop.
  pose proof (pure_forM_ (filter (fun a => a ≠ param) (fargs f))
                (check_arg (check_function n) (default [] forbidden ++ [param])%list)
                (fun a => pure_check_arg _ _ a (pure_check_function n)) e) as Hpure.
  destruct (forM_ _ _ e) as [[[]|x] e1]; simpl in *; [discriminate|].
  intros [= ->]. revert Hloop. intros Hloop. apply Hloop; [| |reflexivity].
  - intros a. apply pure_check_arg, pure_check_function.
  - intros arg Harg. unfold check_arg, bind, self.
    destruct (parameters e !! arg) as [[q|g]|] eqn:Earg; try discriminate.
    pose proof (IH arg g (Some (default [] forbidden ++ [param])%list) e) as Hrec.
    destruct (check_function n arg g _ e) as [[h|y] e2]; [discriminate|].
    simpl in *. intros [= ->]. apply Hrec; [|reflexivity].
    assert (Hheld : arg ∈ held_by_function e) by (apply held_by_function_spec; eauto).
    assert (Hnew : arg ∉ (list_to_set (default [] forbidden ++ [param])%list : gset string)).
    { rewrite elem_of_list_to_set, list_elem_of_In, in_app_iff.
      intros [Hin | [<- | []]].
      - exact (Hfresh arg Harg Hin).
      - apply list_elem_of_In, list_elem_of_filter in Harg as [Hne _]. congruence. }
    apply PeanoNat.lt_S_n. eapply Nat.lt_le_trans; [|exact Hsize].
    apply -> Nat.succ_lt_mono. apply subset_size.
    rewrite list_to_set_app_L. set_solver.
Qed.

(** A fresh definition is checked without running out of a stack deeper
    than the number of parameters held by a function. *)
Lemma check_function_total param f e :
  (check_function (S (size (held_by_function e))) param f None e).1
  <> Raise RuntimeError.
Proof.
  apply check_function_completes. simpl.
  apply Nat.lt_succ_r, subseteq_size. set_solver.
Qed.

(** * Further properties *)

(** ** Parameter names *)

Lemma is_word_newline : is_word (ascii_of_nat 10) = false.
Proof. reflexivity. Qed.

Lemma is_word_tail_spec r :
  is_word_tail r = true <->
  exists body, forallb is_word (list_ascii_of_string body) = true
               /\ (r = body \/ r = body ++ newline).
Proof.
  split.
  - induction r as [|c r IH]; simpl.
    + intros _. exists "". split; [reflexivity | now left].
    + destruct (is_word c) eqn:Ec.
      * intros H. destruct (IH H) as (body & Hb & Hr).
        exists (String c body). simpl. rewrite Ec. split; [exact Hb|].
        destruct Hr as [-> | ->]; [now left | now right].
      * intros H. apply andb_true_iff in H as [Hc Hr].
        apply bool_decide_eq_true in Hr as ->.
        apply Nat.eqb_eq in Hc. exists "". split; [reflexivity|]. right.
        unfold newline. simpl. f_equal.
        rewrite <- (ascii_nat_embedding c), Hc. reflexivity.
  - intros (body & Hb & Hr). revert r Hr.
    induction body as [|c body IH]; intros r Hr.
    + destruct Hr as [-> | ->]; reflexivity.
    + simpl in Hb. apply andb_true_iff in Hb as [Hc Hb].
      destruct Hr as [-> | ->]; simpl; rewrite Hc; apply (IH Hb); auto.
Qed.

(** X1: the names [__is_valid_param] accepts are exactly the identifiers -
    a letter or underscore followed by letters, digits and underscores - and
    the identifiers followed by one newline, which [$] lets through. *)
Theorem is_valid_param_spec s :
  is_valid_param s = true <->
  exists name, identifier name /\ (s = name \/ s = name ++ newline).
Proof.
  split.
  - destruct s as [|c r]; simpl; [discriminate|].
    intros H. apply andb_true_iff in H as [Hc Hr].
    apply is_word_tail_spec in Hr as (body & Hb & Hr).
    exists (String c body). split; [split; assumption|].
    destruct Hr as [-> | ->]; [now left | now right].
  - intros (name & Hid & Hs). destruct name as [|c body]; [contradiction|].
    destruct Hid as [Hc Hb].
    assert (is_word_tail body = true /\ is_word_tail (body ++ newline) = true) as [H1 H2].
    { split; apply is_word_tail_spec; exists body; auto. }
    destruct Hs as [-> | ->]; simpl; rewrite Hc; assumption.
Qed.

(** ** Names are checked before anything is stored *)

(** X2: when a request names parameters that are not valid, both the forced
    assignment and the update raise the [KeyError] that lists every one of
    them, in the order of the request, and the state is left as it was. *)
Theorem invalid_names_rejected_together sympy py_ne fuel kwargs e bad :
  dict_in "self" kwargs = false ->
  filter (fun p => is_valid_param p = false) (dict_keys kwargs) = bad ->
  bad <> [] ->
  lshift sympy fuel kwargs e = (Raise (KeyError (InvalidParameters bad)), e)
  /\ update sympy py_ne fuel kwargs e = (Raise (KeyError (InvalidParameters bad)), e).
Proof.
  intros Hself Hbad Hne. unfold lshift, set, update, call_kw. cbn [existsb].
  rewrite Hself. cbn [orb]. unfold bind. rewrite check_valid_params_run, Hbad.
  destruct bad; [congruence | split; reflexivity].
Qed.

(** ** Retrieval does not store *)

Section ReadOnly.

Variable sympy : Sympy.
Variable py_ne : pyval -> pyval -> bool.

Lemma keeps_get_params fuel args kwargs :
  keeps_tables (get_params sympy fuel args kwargs).
Proof.
  unfold get_params. apply keeps_call_kw.
  assert (Hf : keeps_tables
            (rv <- foldM (fun rv a => v <- get_param sympy fuel a kwargs ;;
                                      ret (dict_set (get_pam_name a) v rv)) [] args ;;
             ret (inr rv : pyval + dict pyval))).
  { apply keeps_bind; [|intros; keeps_leaf].
    apply keeps_foldM. intros rv a.
    apply keeps_bind; [apply keeps_get_param | intros; keeps_leaf]. }
  destruct args as [|a [|b l]]; try exact Hf.
  apply keeps_bind; [apply keeps_get_param | intros; keeps_leaf].
Qed.

Lemma keeps_get fuel args kwargs : keeps_tables (get sympy py_ne fuel args kwargs).
Proof.
  unfold get. apply keeps_call_kw.
  apply keeps_bind; [apply keeps_process_override|].
  intros kwargs'. apply keeps_get_params.
Qed.

(** X3: a call with positional names, whatever the names and the temporary
    overrides given with them and whether it returns or raises, leaves the
    stored values, the unit specs and the scaling tables as they were; only
    the scaling cache may change.  The same holds for attribute access. *)
Theorem retrieval_keeps_tables fuel args kwargs name e :
  (args <> [] -> tables (call_ sympy py_ne fuel args kwargs e).2 = tables e)
  /\ tables (getattr_ sympy py_ne fuel name e).2 = tables e.
Proof.
  split.
  - intros Hargs. unfold call_. generalize e. apply keeps_call_kw.
    destruct args as [|a l]; [congruence|].
    apply keeps_bind; [apply keeps_get | intros; keeps_leaf].
  - unfold getattr_.
    repeat match goal with
           | |- context [match ?x with _ => _ end] => destruct x
           end; first [apply keeps_get | reflexivity].
Qed.

End ReadOnly.

(** ** The scaling factor of a unit *)

(** X4: once [__unit_scaling] has answered for a unit, asking again gives the
    same factor and changes nothing; the answer is the cached factor when
    there is one and the factor computed from the tables otherwise; and a
    call that raises leaves the state as it was. *)
Theorem unit_scaling_repeatable u e :
  (forall s e', unit_scaling u e = (Ok s, e') ->
     unit_scaling u e' = (Ok s, e')
     /\ tables e' = tables e
     /\ (cache_get u (scaling_cache e) = Some s
         \/ (cache_get u (scaling_cache e) = None
             /\ (unit_scaling_direct u e).1 = Ok s)))
  /\ (forall x e', unit_scaling u e = (Raise x, e') -> e' = e).
Proof.
  split.
  - intros s e' H. split; [exact (unit_scaling_again _ _ _ _ H)|].
    split; [pose proof (keeps_unit_scaling u e) as Hk; now rewrite H in Hk|].
    rewrite unit_scaling_run in H.
    destruct (cache_get u (scaling_cache e)) as [s'|].
    + left. congruence.
    + right. split; [reflexivity|].
      destruct (unit_scaling_direct u e).1; [congruence | discriminate].
  - intros x e' H. rewrite unit_scaling_run in H.
    destruct (cache_get u (scaling_cache e)); [discriminate|].
    destruct (unit_scaling_direct u e).1; [discriminate | congruence].
Qed.

Lemma unit_scale_in_app_unmatched l d f u :
  Forall (fun df => df.1 <> udims u) l ->
  unit_scale_in (l ++ [(d, f)]) u = if decide (d = udims u) then f else 1.
Proof.
  induction 1 as [|[d' f'] l Hd _ IH]; simpl; [reflexivity|].
  rewrite decide_False by exact Hd. exact IH.
Qed.

Lemma unit_scale_in_app_matched l d f u :
  Exists (fun df => df.1 = udims u) l ->
  unit_scale_in (l ++ [(d, f)]) u = unit_scale_in l u.
Proof.
  induction l as [|[d' f'] l IH]; intros H; [inversion H|]. simpl.
  destruct (decide (d' = udims u)) as [_|Hne]; [reflexivity|].
  apply IH. inversion H; subst; [contradiction | assumption].
Qed.

(** X5: the unit scalings are looked up first match first: a scaling added
    for a dimension vector that already has one changes no factor, and one
    added for a vector that has none becomes the factor of the units of that
    vector and of no other. *)
Theorem unit_scaling_first_match_wins dims factor u e :
  let e' := (mul (UnitScaling dims factor) e).2 in
  (mul (UnitScaling dims factor) e).1 = Ok tt
  /\ scaling_cache e' = []
  /\ (Exists (fun df => df.1 = udims u) (unit_scalings e) ->
      (unit_scale u e').1 = (unit_scale u e).1)
  /\ (no_unit_scaling (udims u) e ->
      (unit_scale u e).1 = Ok 1
      /\ (unit_scale u e').1 = Ok (if decide (dims = udims u) then factor else 1)).
Proof.
  cbv zeta. unfold mul, scaling_set, unit_scale, bind, modify, self, ret. simpl.
  split; [reflexivity|]. split; [reflexivity|]. split.
  - intros H. now rewrite unit_scale_in_app_matched.
  - intros H. split.
    + f_equal. clear -H. unfold no_unit_scaling in H.
      induction H as [|[d' f'] l Hd _ IH]; simpl; [reflexivity|].
      now rewrite decide_False.
    + now rewrite unit_scale_in_app_unmatched.
Qed.

Lemma foldM_same_result {A S} (f : S -> A -> M S) l e e' :
  (forall s a, pure_of (f s a)) ->
  (forall s a, (f s a e').1 = (f s a e).1) ->
  forall s, (foldM f s l e').1 = (foldM f s l e).1.
Proof.
  intros Hp Hf. induction l as [|a l IH]; intros s; simpl; [reflexivity|].
  unfold bind. pose proof (Hf s a) as Hsa.
  pose proof (Hp s a e) as He. pose proof (Hp s a e') as He'.
  destruct (f s a e) as [[s1|x] e1], (f s a e') as [[s1'|x'] e1'];
    simpl in *; subst; try discriminate; try assumption.
  injection Hsa as ->. apply IH.
Qed.

Lemma pure_basis_scale_step acc dp : pure_of (basis_scale_step acc dp).
Proof.
  unfold basis_scale_step. apply pure_bind; [apply pure_self|]. intros e.
  destruct (units_basis (units e) !! dp.1); [|apply pure_raise].
  apply pure_bind; [|intros; apply pure_ret].
  unfold quantity_power. destruct (decide _); [apply pure_raise | apply pure_ret].
Qed.

(** The basis scale of a unit is read off the dispenser and the basis
    scalings alone. *)
Lemma basis_scale_same v e e' :
  units e' = units e -> scalings e' = scalings e ->
  (basis_scale v e').1 = (basis_scale v e).1.
Proof.
  intros Hu Hs. unfold basis_scale, bind.
  pose proof (get_unit_units v e e' Hu) as Hg.
  pose proof (pure_get_unit v e) as He. pose proof (pure_get_unit v e') as He'.
  destruct (get_unit v e) as [[u|x] e1], (get_unit v e') as [[u'|x'] e1'];
    simpl in *; subst; try discriminate.
  - injection Hg as ->.
    apply foldM_same_result; [apply pure_basis_scale_step|].
    intros acc dp. unfold basis_scale_step, bind, self. simpl. rewrite Hu, Hs.
    destruct (units_basis (units e) !! dp.1); [|reflexivity].
    unfold quantity_power. destruct (decide _); reflexivity.
  - congruence.
Qed.

Lemma pure_basis_scale v : pure_of (basis_scale v).
Proof.
  unfold basis_scale. apply pure_bind; [apply pure_get_unit|].
  intros u. apply pure_foldM. apply pure_basis_scale_step.
Qed.


(** ** Basis scalings *)

Lemma scaling_step_scalings item e :
  let e' := (scaling_step item e).2 in
  forall dim q, scalings e' !! dim = Some q ->
    scalings e !! dim = Some q
    \/ (dim = item.1 /\ mem dim (units_dimensions (units e)) = true
        /\ udims (qunits q) = {[ dim := 1%Z ]}).
Proof.
  cbv zeta. unfold scaling_step. unfold bind at 1. cbv [self].
  destruct (mem item.1 (units_dimensions (units e))) eqn:Emem; [|auto].
  unfold bind.
  pose proof (keeps_get_quantity item.2 (Some item.1) None false e) as Hk.
  destruct (get_quantity item.2 (Some item.1) None false e) as [[v|x] e1];
    simpl in Hk.
  2:{ simpl. intros dim q H. left. unfold tables in Hk. congruence. }
  assert (Hsc : scalings e1 = scalings e) by (unfold tables in Hk; congruence).
  destruct v as [[x|s|u|q0|l]|f|f u]; simpl; try (intros; left; congruence).
  destruct (decide (udims (qunits q0) = {[item.1 := 1%Z]})) as [Hd|Hd]; simpl.
  - intros dim q H. destruct (decide (dim = item.1)) as [->|Hne].
    + rewrite lookup_insert_eq in H. injection H as <-. right. auto.
    + rewrite lookup_insert_ne in H by congruence. left. congruence.
  - intros; left; congruence.
Qed.

Lemma scaling_step_units item e : units (scaling_step item e).2 = units e.
Proof.
  unfold scaling_step. unfold bind at 1. cbv [self].
  destruct (mem _ _); [|reflexivity]. unfold bind.
  pose proof (keeps_get_quantity item.2 (Some item.1) None false e) as Hk.
  destruct (get_quantity item.2 (Some item.1) None false e) as [[v|x] e1];
    simpl in Hk; [|unfold tables in Hk; simpl; congruence].
  assert (units e1 = units e) by (unfold tables in Hk; congruence).
  destruct v as [[x|s|u|q0|l]|f|f u]; simpl; try assumption.
  destruct (decide _); simpl; assumption.
Qed.

(** X7: whatever is asked of [__scaling_set], every basis scaling in the
    table afterwards was there before or is a quantity given for a dimension
    of the dispenser whose own dimension vector is that single dimension; so
    the table keeps holding, for each dimension, a quantity of that
    dimension. *)
Theorem scaling_set_keeps_basis_well_dimensioned request e :
  let e' := (mul request e).2 in
  (forall dim q, scalings e' !! dim = Some q ->
     scalings e !! dim = Some q
     \/ (mem dim (units_dimensions (units e)) = true
         /\ udims (qunits q) = {[ dim := 1%Z ]}))
  /\ (well_dimensioned e -> well_dimensioned e').
Proof.
  cbv zeta.
  assert (H : forall dim q, scalings (mul request e).2 !! dim = Some q ->
            scalings e !! dim = Some q
            \/ (mem dim (units_dimensions (units e)) = true
                /\ udims (qunits q) = {[ dim := 1%Z ]})).
  { unfold mul, scaling_set. unfold bind at 1. unfold modify at 1.
    set (e0 := set_scaling_cache [] e).
    assert (H0 : scalings e0 = scalings e /\ units e0 = units e) by (split; reflexivity).
    destruct H0 as [Hs0 Hu0]. rewrite <- Hs0, <- Hu0. clearbody e0. clear Hs0 Hu0.
    destruct request as [d|dims factor|]; simpl; auto.
    revert e0. induction d as [|item d IH]; intros e0 dim q; simpl; [auto|].
    unfold bind.
    pose proof (scaling_step_scalings item e0) as Hstep.
    pose proof (scaling_step_units item e0) as Hunits.
    destruct (scaling_step item e0) as [[[]|x] e1]; simpl in *.
    - intros Hq. destruct (IH e1 dim q Hq) as [Hprev | [Hm Hd]].
      + destruct (Hstep dim q Hprev) as [? | (_ & ? & ?)]; auto.
      + right. rewrite <- Hunits. auto.
    - intros Hq. destruct (Hstep dim q Hq) as [? | (_ & ? & ?)]; auto. }
  split; [exact H|].
  intros Hw dim q Hq. destruct (H dim q Hq) as [Hprev | [_ Hd]]; [|exact Hd].
  exact (Hw dim q Hprev).
Qed.

(** ** The cycle check ends with its own verdict *)

Lemma forM__outcomes {A} (P : exn -> Prop) (f : A -> M unit) (l : list A) e :
  (forall a, pure_of (f a)) ->
  (forall a x, (f a e).1 = Raise x -> P x) ->
  forall x, (forM_ l f e).1 = Raise x -> P x.
Proof.
  intros Hp Hf. induction l as [|a l IH]; simpl; [discriminate|].
  unfold bind. pose proof (Hp a e) as Ha. pose proof (Hf a) as Hr.
  destruct (f a e) as [[[]|y] e1]; simpl in *; subst.
  - exact IH.
  - intros x [= <-]. now apply Hr.
Qed.

Lemma check_function_outcomes n :
  forall param f forbidden e x,
    (check_function n param f forbidden e).1 = Raise x ->
    x = RuntimeError \/ exists a, x = ValueError (RecursionWith a).
Proof.
  induction n as [|n IH]; intros param f forbidden e x; [intros [= <-]; now left|].
  cbn [check_function]. unfold bind at 1.
  destruct (check_forbidden _ forbidden e) as [[fb|y] e1] eqn:Ecf.
  2:{ simpl. intros [= <-]. unfold check_forbidden in Ecf.
      destruct forbidden as [fb|]; [|discriminate].
      destruct (find _ fb) as [a|]; [|discriminate]. injection Ecf as <- _.
      right. now exists a. }
  assert (e1 = e) as -> by (eapply pure_run; [apply pure_check_forbidden | exact Ecf]).
  unfold bind.
  pose proof (forM__outcomes
                (fun x => x = RuntimeError \/ exists a, x = ValueError (RecursionWith a))
                (check_arg (check_function n) (fb ++ [param])%list)
                (filter (fun a => a ≠ param) (fargs f)) e) as Hloop.
  destruct (forM_ _ _ e) as [[[]|y] e1]; simpl in *; [discriminate|].
  intros [= <-]. apply Hloop; [| |reflexivity].
  - intros a. apply pure_check_arg, pure_check_function.
  - intros arg z. unfold check_arg, bind, self.
    destruct (parameters e !! arg) as [[q|g]|] eqn:Earg; try discriminate.
    pose proof (IH arg g (Some (fb ++ [param])%list) e) as Hrec.
    destruct (check_function n arg g _ e) as [[h|w] e2]; [discriminate|].
    simpl in *. intros [= <-]. now apply Hrec.
Qed.

(** X8: on a stack deeper than the number of parameters held by a function,
    the cycle check of a new definition ends with its own verdict: it returns
    the function it was given or raises the [ValueError] that names a
    recursion; it does not run out of stack, and it leaves the state as it
    was. *)
Theorem cycle_check_gives_a_verdict n param f e :
  (size (held_by_function e) < n)%nat ->
  (check_function n param f None e = (Ok f, e)
   \/ exists a, check_function n param f None e
               = (Raise (ValueError (RecursionWith a)), e)).
Proof.
  intros Hn.
  pose proof (check_function_completes n param f None e) as Hc.
  pose proof (check_function_outcomes n param f None e) as Ho.
  pose proof (pure_check_function n param f None e) as Hp.
  pose proof (check_function_Ok n param f None e) as Hk.
  destruct (check_function n param f None e) as [[g|x] e1]; simpl in *; subst e1.
  - left. now rewrite (Hk g e eq_refl).
  - right. destruct (Ho x eq_refl) as [-> | [a ->]]; [|now exists a].
    exfalso. apply Hc; [|reflexivity].
    eapply Nat.le_lt_trans; [|exact Hn]. apply subseteq_size. set_solver.
Qed.

(** ** Overrides that are plain values *)

Lemma foldM_fixed {A S} (f : S -> A -> M S) s l e :
  (forall a, In a l -> f s a e = (Ok s, e)) -> foldM f s l e = (Ok s, e).
Proof.
  induction l as [|a l IH]; intros H; simpl; [reflexivity|].
  unfold bind. rewrite (H a (or_introl eq_refl)). apply IH.
  intros b Hb. apply H. now right.
Qed.

Lemma process_override_plain sympy py_ne n kwargs e :
  Forall (plain_override e) kwargs ->
  process_override sympy py_ne (S (S n)) kwargs None e = (Ok kwargs, e).
Proof.
  intros Hplain. rewrite process_override_S. cbv zeta.
  destruct (dict_keys kwargs) as [|k ks] eqn:Ek; [reflexivity|].
  rewrite Forall_forall in Hplain.
  erewrite bind_run.
  2:{ apply foldM_fixed. intros item Hin. apply normalize_step_data.
      apply (Hplain item). now apply list_elem_of_In. }
  erewrite bind_run.
  2:{ apply foldM_fixed. intros item Hin. apply ratify_step_concrete.
      apply (Hplain item). now apply list_elem_of_In. }
  reflexivity.
Qed.

(** ** A bare number is a scaled value *)




(** ** Declaring a unit *)



(** ** Temporary overrides *)

Lemma dict_in_self_arg {B} (kwargs : dict B) :
  existsb (fun k => dict_in k kwargs) ["self"; "arg"] = false ->
  dict_in "self" kwargs = false /\ dict_in "arg" kwargs = false.
Proof.
  cbn [existsb]. rewrite orb_false_r. intros H.
  apply orb_false_iff in H. exact H.
Qed.

Lemma call_kw_self {A B} (kwargs : dict B) (body : M A) :
  dict_in "self" kwargs = false -> call_kw ["self"] kwargs body = body.
Proof. intros H. apply call_kw_free. cbn [existsb]. now rewrite H. Qed.

(** X11: a temporary override given as a (magnitude, unit) pair is what the
    unit-aware view of the name reads, whatever is stored under the name,
    when the overrides are plain values of names that no function holds; the
    read changes nothing, so the stored value is still there afterwards. *)
Theorem temporary_override_shadows sympy py_ne n x m un u kwargs e :
  is_prefixed x = false ->
  Forall (plain_override e) kwargs ->
  existsb (fun k => dict_in k kwargs) ["self"; "arg"] = false ->
  dict_get x kwargs = Some (Val (VSeq [VNum m; VStr un])) ->
  units_get (units e) un = Some u ->
  let aware := if default_scaled e then "_" ++ x else x in
  get sympy py_ne (S (S n)) [aware] kwargs e
  = (Ok (inl (Val (VQuantity (mkQuantity m u)))), e).
Proof.
  intros Hpre Hplain Hfree Hx Hu. cbv zeta.
  destruct (dict_in_self_arg kwargs Hfree) as [Hself Harg].
  unfold get. rewrite call_kw_self by assumption.
  rewrite (bind_run _ _ _ _ _ (process_override_plain sympy py_ne n kwargs e Hplain)).
  unfold get_params. rewrite call_kw_self by assumption.
  assert (Hname : get_pam_name (if default_scaled e then "_" ++ x else x) = x).
  { destruct (default_scaled e);
      [apply get_pam_name_underscore | now apply get_pam_name_plain]. }
  assert (Hflag : (if is_prefixed (if default_scaled e then "_" ++ x else x)
                   then negb (default_scaled e) else default_scaled e) = false).
  { destruct (default_scaled e); [reflexivity | now rewrite Hpre]. }
  assert (Hget : get_param sympy (S (S n)) (if default_scaled e then "_" ++ x else x)
                   kwargs e
                 = (Ok (Val (VQuantity (mkQuantity m u))), e)).
  { cbn [get_param]. rewrite call_kw_free by exact Hfree.
    unfold bind at 1. cbv [self]. rewrite Hname, Hflag.
    unfold dict_in. rewrite Hx. cbn [negb andb].
    now apply get_quantity_pair. }
  rewrite (bind_run _ _ _ _ _ Hget). reflexivity.
Qed.

(** X12: a parameter called [arg] can be stored, but a retrieval that is
    given a temporary override for it raises [TypeError], the override
    clashing with the named argument of [__get_param]; nothing changes. *)
Theorem override_named_arg_refused sympy py_ne n a args kwargs e :
  Forall (plain_override e) kwargs ->
  dict_in "self" kwargs = false ->
  dict_in "arg" kwargs = true ->
  get sympy py_ne (S (S n)) (a :: args) kwargs e = (Raise TypeError, e)
  /\ forall m un u,
       units_get (units e) un = Some u ->
       (forall f, parameters e !! "arg" <> Some (SFun f)) ->
       update sympy py_ne (S (S n)) [("arg", Val (VSeq [VNum m; VStr un]))] e
       = (Ok tt, stored_as "arg" (mkQuantity m u) e).
Proof.
  intros Hplain Hself Harg. split.
  - unfold get. rewrite call_kw_self by assumption.
    rewrite (bind_run _ _ _ _ _ (process_override_plain sympy py_ne n kwargs e Hplain)).
    unfold get_params. rewrite call_kw_self by assumption.
    assert (Hget : get_param sympy (S (S n)) a kwargs e = (Raise TypeError, e)).
    { cbn [get_param]. unfold call_kw. cbn [existsb]. rewrite Harg, Hself.
      reflexivity. }
    destruct args as [|b args].
    + now rewrite (bind_raise _ _ _ _ _ Hget).
    + erewrite bind_raise; [reflexivity|].
      apply foldM_raise_first. now rewrite (bind_raise _ _ _ _ _ Hget).
  - intros m un u Hu Hf. apply update_pair_run; [discriminate | reflexivity | exact Hu | exact Hf].
Qed.

(** X13: an override of a parameter that is held by a function which does
    not take the parameter itself among its arguments cannot be propagated:
    a retrieval and an update given it raise the [ValueError] of a
    non-invertible map and leave the state as it was. *)
Theorem non_invertible_override_refused sympy py_ne n y f v args e :
  parameters e !! y = Some (SFun f) ->
  y <> "self" -> y <> "param" -> is_valid_param y = true ->
  mem y (fargs f) = false -> mem ("_" ++ y) (fargs f) = false ->
  is_data v ->
  get sympy py_ne (S (S n)) args [(y, v)] e
  = (Raise (ValueError (NonInvertible y)), e)
  /\ update sympy py_ne (S (S n)) [(y, v)] e
     = (Raise (ValueError (NonInvertible y)), e).
Proof.
  intros Hy Hself Hparam Hvalid Hm Hm' Hv.
  assert (Hp : process_override sympy py_ne (S (S n)) [(y, v)] None e
               = (Raise (ValueError (NonInvertible y)), e)).
  { rewrite process_override_S. cbn [dict_keys map fst].
    erewrite bind_run by (apply foldM_one, normalize_step_data; exact Hv).
    erewrite bind_raise; [reflexivity|].
    apply foldM_raise_first. unfold ratify_step. cbn [fst snd].
    assert (Hmem : mem y [y] = true) by (unfold mem; simpl; now rewrite String.eqb_refl).
    rewrite Hmem. unfold bind at 1. cbv [self]. rewrite Hy.
    erewrite bind_raise; [reflexivity|].
    cbn [eval_function]. rewrite call_kw_free.
    2:{ assert (E1 : String.eqb "self" y = false) by (apply String.eqb_neq; congruence).
        assert (E2 : String.eqb "param" y = false) by (apply String.eqb_neq; congruence).
        cbn [existsb]. unfold dict_in, dict_get. now rewrite E1, E2. }
    unfold bind at 1. cbv [self]. rewrite Hy.
    unfold dict_in. cbn [dict_get]. rewrite String.eqb_refl, Hm, Hm'. reflexivity. }
  split.
  - unfold get. rewrite call_kw_self_single by assumption.
    now rewrite (bind_raise _ _ _ _ _ Hp).
  - unfold update. rewrite call_kw_self_single by assumption.
    cbv [dict_keys map fst].
    rewrite (bind_run _ _ _ _ _ (check_valid_single _ _ Hvalid)).
    now rewrite (bind_raise _ _ _ _ _ Hp).
Qed.

(** ** Conversion *)


(** ** Updates leave function definitions alone *)

Lemma forM__invariant {A} (P : engine -> Prop) (f : A -> M unit) l :
  (forall a e, P e -> P (f a e).2) -> forall e, P e -> P (forM_ l f e).2.
Proof.
  intros Hf. induction l as [|a l IH]; intros e He; simpl; [exact He|].
  unfold bind. pose proof (Hf a e He) as Ha.
  destruct (f a e) as [[[]|x] e1]; simpl in *; [now apply IH | exact Ha].
Qed.

Lemma update_step_keeps_function sympy fuel item p f spec0 e :
  parameters e !! p = Some (SFun f) /\ parameters_spec e !! p = spec0 ->
  parameters (update_step sympy fuel item e).2 !! p = Some (SFun f)
  /\ parameters_spec (update_step sympy fuel item e).2 !! p = spec0.
Proof.
  intros [Hp Hs]. destruct (decide (item.1 = p)) as [Heq|Hne].
  - unfold update_step, bind, self. rewrite Heq, Hp. simpl. auto.
  - destruct (touches_update_step sympy fuel item e) as [H _].
    destruct (H p ltac:(congruence)) as [H1 H2]. rewrite H1, H2. auto.
Qed.

(** X16: an update never replaces or removes a function definition: a name
    that holds a function holds the same function, under the same unit spec,
    after any update, whatever the request and whether the update returns or
    raises. *)
Theorem update_keeps_function_definitions sympy py_ne fuel kwargs e p f :
  parameters e !! p = Some (SFun f) ->
  parameters (update sympy py_ne fuel kwargs e).2 !! p = Some (SFun f)
  /\ parameters_spec (update sympy py_ne fuel kwargs e).2 !! p
     = parameters_spec e !! p.
Proof.
  intros Hp.
  set (P := fun e' => parameters e' !! p = Some (SFun f)
                      /\ parameters_spec e' !! p = parameters_spec e !! p).
  change (P (update sympy py_ne fuel kwargs e).2).
  assert (He : P e) by (split; [exact Hp | reflexivity]).
  unfold update, call_kw.
  destruct (existsb _ _); [exact He|].
  unfold bind at 1. rewrite check_valid_params_run.
  destruct (filter _ _); [|exact He].
  unfold bind at 1.
  pose proof (keeps_process_override sympy py_ne fuel kwargs None e) as Hk.
  destruct (process_override sympy py_ne fuel kwargs None e) as [[kwargs'|x] e1];
    simpl in Hk; unfold tables in Hk.
  - apply forM__invariant.
    + intros item e0 H0. now apply update_step_keeps_function.
    + destruct He. split; congruence.
  - simpl. destruct He. split; congruence.
Qed.

(** ** Functions that are accepted *)

Lemma forM__fixed {A} (f : A -> M unit) l e :
  (forall a, In a l -> f a e = (Ok tt, e)) -> forM_ l f e = (Ok tt, e).
Proof.
  induction l as [|a l IH]; intros H; simpl; [reflexivity|].
  unfold bind. rewrite (H a (or_introl eq_refl)). apply IH.
  intros b Hb. apply H. now right.
Qed.

Lemma check_function_plain n name f e :
  (forall a g, In a (fargs f) -> a <> name -> parameters e !! a <> Some (SFun g)) ->
  check_function (S n) name f None e = (Ok f, e).
Proof.
  intros Hplain. cbn [check_function check_forbidden].
  unfold bind at 1. unfold ret at 1. unfold bind at 1.
  rewrite forM__fixed; [reflexivity|].
  intros a Ha. apply list_elem_of_In, list_elem_of_filter in Ha as [Hne Ha].
  apply list_elem_of_In in Ha.
  unfold check_arg, bind, self.
  destruct (parameters e !! a) as [[q|g]|] eqn:Ea; try reflexivity.
  exfalso. exact (Hplain a g Ha Hne Ea).
Qed.

(** X20: a function whose arguments, other than the name it is assigned to,
    are not held by functions passes the cycle check on any stack, also when
    it takes the name itself as an argument; the forced assignment stores it
    and declares the dimensionless unit for the name. *)
Theorem function_of_plain_parameters_accepted sympy n name f u e :
  name <> "self" -> is_valid_param name = true ->
  (forall a g, In a (fargs f) -> a <> name -> parameters e !! a <> Some (SFun g)) ->
  units_get (units e) "" = Some u ->
  lshift sympy (S n) [(name, Fun f)] e
  = (Ok tt,
     set_parameters_spec (<[name := u]> (parameters_spec e))
       (set_parameters (<[name := SFun f]> (parameters e)) e)).
Proof.
  intros Hn Hv Hplain Hu. unfold lshift, set.
  rewrite call_kw_self_single by assumption. cbv [dict_keys map fst].
  rewrite (bind_run _ _ _ _ _ (check_valid_single _ _ Hv)).
  cbv [forM_ snd fst]. unfold bind at 1. unfold except_ValueError.
  assert (Hset : set_one sympy (S n) name (Fun f) e
                 = (Ok tt,
                    set_parameters_spec (<[name := u]> (parameters_spec e))
                      (set_parameters (<[name := SFun f]> (parameters e)) e))).
  { unfold set_one, install. cbn [get_function]. unfold bind at 1. unfold ret at 1.
    rewrite (bind_run _ _ _ _ _ (check_function_plain n name f e Hplain)).
    unfold bind at 1. unfold modify at 1.
    erewrite bind_run.
    2:{ unfold get_unit, bind, self. simpl. rewrite Hu. reflexivity. }
    rewrite spec_one_run by assumption. simpl.
    now rewrite lookup_insert_eq. }
  rewrite Hset. reflexivity.
Qed.

(** X17: when a function is given with a unit that cannot be resolved, the
    forced assignment raises, but the function has been stored by then: the
    state that is left holds the function under the name, with the unit spec
    of the name as it was. *)
Theorem function_stored_before_unit_fails sympy n name f unit m e :
  name <> "self" -> is_valid_param name = true ->
  (forall a g, In a (fargs f) -> a <> name -> parameters e !! a <> Some (SFun g)) ->
  (get_unit unit e).1 = Raise (ValueError m) ->
  lshift sympy (S n) [(name, FunUnit f unit)] e
  = (Raise (ValueError (CouldNotAdd name m)),
     set_parameters (<[name := SFun f]> (parameters e)) e).
Proof.
  intros Hn Hv Hplain Hu. unfold lshift, set.
  rewrite call_kw_self_single by assumption. cbv [dict_keys map fst].
  rewrite (bind_run _ _ _ _ _ (check_valid_single _ _ Hv)).
  cbv [forM_ snd fst]. unfold bind at 1. unfold except_ValueError.
  assert (Hset : set_one sympy (S n) name (FunUnit f unit) e
                 = (Raise (ValueError m),
                    set_parameters (<[name := SFun f]> (parameters e)) e)).
  { unfold set_one, install. cbn [get_function]. unfold bind at 1. unfold ret at 1.
    rewrite (bind_run _ _ _ _ _ (check_function_plain n name f e Hplain)).
    unfold bind at 1. unfold modify at 1.
    apply bind_raise.
    set (e1 := set_parameters (<[name := SFun f]> (parameters e)) e).
    pose proof (pure_get_unit unit e1) as Hp.
    pose proof (get_unit_units unit e e1 eq_refl) as Hsame.
    rewrite Hu in Hsame.
    destruct (get_unit unit e1) as [r e2]; simpl in *. now subst. }
  rewrite Hset. reflexivity.
Qed.

(** ** Names that are not stored *)

(** X15: once a name has been removed, reading it raises the [ValueError]
    that says there is no such parameter and no interpretation of the name,
    when the name parses as the symbol it spells; the read changes nothing. *)
Theorem removed_name_has_no_interpretation sympy py_ne n x e :
  is_prefixed x = false ->
  sympy_free_symbols sympy x = Some [sympy_str sympy x] ->
  let e1 := (sub (VStr x) e).2 in
  get sympy py_ne (S (S n)) [x] [] e1
  = (Raise (ValueError (NoInterpretation x)), e1).
Proof.
  intros Hpre Hsym. cbv zeta. unfold sub. rewrite remove_run. cbn [snd].
  set (e1 := set_parameters_spec _ _).
  assert (Hx : parameters e1 !! x = None) by (unfold e1; simpl; apply lookup_delete_eq).
  cbv [get call_kw existsb dict_in dict_get orb].
  rewrite (bind_run _ _ _ _ _ (process_override_nil _ _ _ _)).
  cbv [get_params call_kw existsb dict_in dict_get orb].
  erewrite bind_raise; [reflexivity|].
  cbn [get_param]. cbv [call_kw existsb dict_in dict_get orb].
  unfold bind at 1. cbv [self].
  rewrite (get_pam_name_plain x Hpre), Hx.
  rewrite bool_decide_eq_false_2 by (intros [? ?]; discriminate).
  cbn [negb andb eval_str]. cbv [call_kw existsb dict_in dict_get orb].
  rewrite Hsym. now rewrite bool_decide_eq_true_2.
Qed.

(** ** Both views in one call *)

(** X18: a call that asks for a stored quantity under its name and under the
    prefixed name returns a dictionary with one entry, under the name without
    the prefix: it holds the view asked for last, and the view asked for
    first is lost. *)
Theorem both_views_share_a_key sympy py_ne n x q s e e1 :
  is_prefixed x = false ->
  parameters e !! x = Some (SQuantity q) ->
  unit_scaling (qunits q) e = (Ok s, e1) -> s <> 0 ->
  get sympy py_ne (S n) [x; "_" ++ x] [] e
  = (Ok (inr [(x, if default_scaled e then Val (VQuantity q)
                  else Val (VNum (qvalue q / s)))]), e1).
Proof.
  intros Hpre Hq Hs Hz.
  destruct (unit_scaling_cached _ _ _ _ Hs) as [_ Htab].
  assert (Hq1 : parameters e1 !! x = Some (SQuantity q)) by (rewrite <- Hq; congruence).
  assert (Hd1 : default_scaled e1 = default_scaled e) by congruence.
  cbv [get call_kw existsb dict_in dict_get orb].
  rewrite (bind_run _ _ _ _ _ (process_override_nil _ _ _ _)).
  cbv [get_params call_kw existsb dict_in dict_get orb].
  cbn [foldM]. unfold bind at 1. unfold bind at 1. unfold bind at 1.
  rewrite (get_param_stored sympy n x q e)
    by (now rewrite (get_pam_name_plain x Hpre)).
  rewrite (get_pam_name_plain x Hpre), Hpre.
  destruct (default_scaled e) eqn:Ed.
  - rewrite (get_quantity_scaled q (Some x) e s e1 Hs Hz).
    unfold ret at 1. unfold bind at 1. unfold bind at 1.
    rewrite (get_param_stored sympy n ("_" ++ x) q e1)
      by (now rewrite get_pam_name_underscore).
    rewrite get_pam_name_underscore, is_prefixed_underscore, Hd1.
    cbn [negb]. rewrite get_quantity_unit_aware.
    unfold ret, bind. cbn [dict_set]. now rewrite String.eqb_refl.
  - rewrite get_quantity_unit_aware.
    unfold ret at 1. unfold bind at 1. unfold bind at 1.
    rewrite (get_param_stored sympy n ("_" ++ x) q e)
      by (now rewrite get_pam_name_underscore).
    rewrite get_pam_name_underscore, is_prefixed_underscore, Ed.
    cbn [negb]. rewrite (get_quantity_scaled q (Some x) e s e1 Hs Hz).
    unfold ret, bind. cbn [dict_set]. now rewrite String.eqb_refl.
Qed.

(** ** Evaluating a function parameter *)

Lemma filter_not_target y (args : list string) :
  Forall (fun a => a <> y) args ->
  filter (fun arg => ¬ (arg = y ∧ dict_in arg ([] : dict pyval) = false)) args = args.
Proof.
  induction 1 as [|a l Ha _ IH]; [reflexivity|].
  rewrite filter_cons, decide_True by (intros [? _]; contradiction).
  now rewrite IH.
Qed.

Lemma mapM_stored sympy n e (args : list string) (qs : list Quantity) :
  Forall2 (fun a q => is_prefixed a = default_scaled e
                      /\ parameters e !! get_pam_name a = Some (SQuantity q)) args qs ->
  mapM (fun arg => get_param sympy (S n) arg []) args e
  = (Ok (map (fun q => Val (VQuantity q)) qs), e).
Proof.
  induction 1 as [|a q args qs [Hview Hq] _ IH]; [reflexivity|].
  cbn [mapM map]. unfold bind at 1.
  rewrite (get_param_stored sympy n a q e Hq), Hview.
  assert (Hflag : (if default_scaled e then negb (default_scaled e)
                   else default_scaled e) = false) by (now destruct (default_scaled e)).
  rewrite Hflag, get_quantity_unit_aware.
  unfold bind at 1. rewrite IH. reflexivity.
Qed.

Lemma as_data_quantities (qs : list Quantity) :
  as_data (map (fun q => Val (VQuantity q)) qs) = Some (map VQuantity qs).
Proof. induction qs as [|q qs IH]; simpl; [reflexivity | now rewrite IH]. Qed.

(** X21: in the unit-aware views, a parameter held by a function reads as
    what the function returns on the quantities stored for its arguments at
    the time of the read: the first element of the result when the function
    returns a sequence, nothing being cached or changed by the read. *)
Theorem function_parameter_follows_arguments sympy py_ne n y f qs rv r e :
  parameters e !! y = Some (SFun f) ->
  is_prefixed y = false ->
  Forall2 (fun a q => is_prefixed a = default_scaled e
                      /\ parameters e !! get_pam_name a = Some (SQuantity q))
          (fargs f) qs ->
  fbody f (map VQuantity qs) = Ok rv ->
  hd_error (as_seq rv) = Some (VQuantity r) ->
  let aware := if default_scaled e then "_" ++ y else y in
  get sympy py_ne (S (S (S n))) [aware] [] e
  = (Ok (inl (Val (VQuantity r))), e).
Proof.
  intros Hy Hpre Hargs Hbody Hhd. cbv zeta.
  assert (Hname : get_pam_name (if default_scaled e then "_" ++ y else y) = y).
  { destruct (default_scaled e);
      [apply get_pam_name_underscore | now apply get_pam_name_plain]. }
  assert (Hflag : (if is_prefixed (if default_scaled e then "_" ++ y else y)
                   then negb (default_scaled e) else default_scaled e) = false).
  { destruct (default_scaled e); [reflexivity | now rewrite Hpre]. }
  assert (Hne : Forall (fun a => a <> y) (fargs f)).
  { clear -Hargs Hy Hpre. induction Hargs as [|a q l l' [Hview Hq] _ IH];
      constructor; [|exact IH].
    intros ->. rewrite (get_pam_name_plain y Hpre) in Hq. congruence. }
  assert (Heval : eval_function sympy (S (S n)) y [] e
                  = (Ok [(y, Val (VQuantity r))], e)).
  { cbn [eval_function]. rewrite call_kw_free by reflexivity.
    unfold bind at 1. cbv [self]. rewrite Hy.
    change (@dict_in pyval y []) with false. cbn [andb negb].
    rewrite (filter_not_target y (fargs f) Hne).
    rewrite (bind_run _ _ _ _ _ (mapM_stored sympy n e (fargs f) qs Hargs)).
    unfold call. rewrite as_data_quantities. unfold bind at 1, lift at 1.
    rewrite Hbody.
    destruct (as_seq rv) as [|x rest]; [discriminate|].
    simpl in Hhd. injection Hhd as ->.
    reflexivity. }
  cbv [get call_kw existsb dict_in dict_get orb].
  rewrite (bind_run _ _ _ _ _ (process_override_nil _ _ _ _)).
  cbv [get_params call_kw existsb dict_in dict_get orb].
  erewrite bind_run; [reflexivity|].
  cbn [get_param]. cbv [call_kw existsb dict_in dict_get orb].
  unfold bind at 1. cbv [self]. rewrite Hname, Hflag, Hy.
  rewrite bool_decide_eq_true_2 by eauto. cbn [negb andb].
  rewrite (bind_run _ _ _ _ _ Heval). cbn [dict_get].
  rewrite String.eqb_refl. reflexivity.
Qed.

(** ** Requests of (magnitude, unit) pairs *)

Lemma store_pairs_cons d it items e :
  store_pairs d (it :: items) e
  = store_pairs d items
      (match units_get d it.2.2 with
       | Some u => stored_as it.1 (mkQuantity it.2.1 u) e
       | None => e
       end).
Proof. reflexivity. Qed.

Lemma store_pairs_units d items :
  forall e, units (store_pairs d items e) = units e.
Proof.
  induction items as [|it items IH]; intros e; [reflexivity|].
  unfold store_pairs in *. cbn [fold_left]. rewrite IH.
  now destruct (units_get d it.2.2).
Qed.

Lemma store_pairs_other d items name :
  ~ In name (map fst items) ->
  forall e, parameters (store_pairs d items e) !! name = parameters e !! name
            /\ parameters_spec (store_pairs d items e) !! name
               = parameters_spec e !! name.
Proof.
  induction items as [|it items IH]; intros Hnot e; [split; reflexivity|].
  unfold store_pairs in *. cbn [fold_left].
  cbn [map In] in Hnot.
  destruct (IH ltac:(tauto)
              (match units_get d it.2.2 with
               | Some u => stored_as it.1 (mkQuantity it.2.1 u) e
               | None => e
               end)) as [H1 H2].
  rewrite H1, H2.
  destruct (units_get d it.2.2); [|split; reflexivity].
  simpl. rewrite !lookup_insert_ne by tauto. split; reflexivity.
Qed.

Lemma update_loop_pairs sympy fuel d items :
  forall e,
    units e = d ->
    Forall (fun it => it.1 <> "self" /\ is_valid_param it.1 = true
                      /\ is_Some (units_get d it.2.2)
                      /\ forall f, parameters e !! it.1 <> Some (SFun f)) items ->
    forM_ (request_pairs items) (update_step sympy fuel) e
    = (Ok tt, store_pairs d items e).
Proof.
  induction items as [|[name [v un]] items IH]; intros e Hd Hall; [reflexivity|].
  inversion Hall as [|? ? (Hn & Hv & [u Hu] & Hf) Hrest]; subst. cbn [fst snd] in *.
  change (request_pairs ((name, (v, un)) :: items))
    with ((name, Val (VSeq [VNum v; VStr un])) :: request_pairs items).
  cbn [forM_]. unfold bind at 1.
  unfold update_step at 1. unfold bind at 1. cbv [self fst snd].
  assert (Hset : set sympy fuel [(name, Val (VSeq [VNum v; VStr un]))] e
                 = (Ok tt, stored_as name (mkQuantity v u) e)).
  { apply set_pair_run; assumption. }
  assert (Hstep : match parameters e !! name with
                  | Some (SFun _) => ret tt
                  | _ => set sympy fuel [(name, Val (VSeq [VNum v; VStr un]))]
                  end e = (Ok tt, stored_as name (mkQuantity v u) e)).
  { destruct (parameters e !! name) as [[q|f]|] eqn:Ep;
      [exact Hset | exfalso; now apply (Hf f) | exact Hset]. }
  rewrite Hstep.
  rewrite (IH (stored_as name (mkQuantity v u) e)).
  - unfold store_pairs. cbn [fold_left fst snd]. now rewrite Hu.
  - reflexivity.
  - eapply Forall_impl; [exact Hrest|].
    intros it (Hn' & Hv' & Hu' & Hf'). repeat split; try assumption.
    intros f. simpl. destruct (decide (it.1 = name)) as [->|Hne].
    + rewrite lookup_insert_eq. discriminate.
    + rewrite lookup_insert_ne by congruence. apply Hf'.
Qed.

Lemma request_pairs_keys items : dict_keys (request_pairs items) = map fst items.
Proof. unfold dict_keys, request_pairs. rewrite map_map. reflexivity. Qed.

Lemma dict_in_not_key {A} k (d : dict A) :
  ~ In k (dict_keys d) -> dict_in k d = false.
Proof.
  intros H. destruct (dict_in k d) eqn:E; [|reflexivity].
  apply dict_in_keys in E. contradiction.
Qed.

(** X19: an update asked to set (magnitude, unit) pairs, under valid names
    that no function holds and in units the dispenser knows, returns and
    leaves the state in which the pairs have been stored one after the other,
    each with its unit as unit spec; when the names are distinct, every name
    of the request then holds its pair. *)
Theorem update_of_pairs sympy py_ne n items e :
  Forall (fun it => it.1 <> "self" /\ is_valid_param it.1 = true
                    /\ is_Some (units_get (units e) it.2.2)
                    /\ forall f, parameters e !! it.1 <> Some (SFun f)) items ->
  let e' := store_pairs (units e) items e in
  update sympy py_ne (S (S n)) (request_pairs items) e = (Ok tt, e')
  /\ (NoDup (map fst items) ->
      forall name v un u, In (name, (v, un)) items ->
        units_get (units e) un = Some u ->
        parameters e' !! name = Some (SQuantity (mkQuantity v u))
        /\ parameters_spec e' !! name = Some u).
Proof.
  intros Hall. cbv zeta. split.
  - unfold update.
    rewrite call_kw_self.
    2:{ apply dict_in_not_key. rewrite request_pairs_keys.
        intros Hin. apply in_map_iff in Hin as (it & Heq & Hin).
        rewrite Forall_forall in Hall.
        apply list_elem_of_In, Hall in Hin. now destruct Hin. }
    unfold bind at 1. rewrite check_valid_params_run, request_pairs_keys.
    assert (Hvalid : filter (fun p => is_valid_param p = false) (map fst items) = []).
    { clear -Hall. induction Hall as [|it items (_ & Hv & _) _ IH]; [reflexivity|].
      cbn [map]. rewrite filter_cons, decide_False by congruence. exact IH. }
    rewrite Hvalid.
    assert (Hplain : Forall (plain_override e) (request_pairs items)).
    { clear -Hall. induction Hall as [|it items (_ & _ & _ & Hf) _ IH];
        constructor; [|exact IH].
      split; [exact I | exact Hf]. }
    cbv beta iota.
    rewrite (bind_run _ _ _ _ _
               (process_override_plain sympy py_ne n (request_pairs items) e Hplain)).
    now apply update_loop_pairs.
  - clear Hall. intros Hnd name v un u Hin Hu.
    set (d := units e) in *. clearbody d. revert e.
    induction items as [|it items IH]; intros e; [contradiction|].
    cbn [map] in Hnd. apply NoDup_cons in Hnd as [Hfresh Hnd].
    rewrite store_pairs_cons.
    destruct Hin as [-> | Hin].
    + cbn [fst snd]. rewrite Hu.
      destruct (store_pairs_other d items name
                  ltac:(now rewrite <- list_elem_of_In)
                  (stored_as name (mkQuantity v u) e)) as [H1 H2].
      rewrite H1, H2. simpl. now rewrite !lookup_insert_eq.
    + now apply IH.
Qed.

(** ** Scaling requests that are not applied *)


(** ** Values that are not accepted *)

(** X23: the forced assignment of an empty tuple raises [IndexError] as it
    is, and that of a tuple that starts with a number and has not two
    elements raises the [ValueError] that names the parameter; neither
    changes the state. *)
Theorem malformed_values_refused sympy fuel name e :
  name <> "self" -> is_valid_param name = true ->
  lshift sympy fuel [(name, Val (VSeq []))] e = (Raise IndexError, e)
  /\ forall x rest, length rest <> 1%nat ->
       lshift sympy fuel [(name, Val (VSeq (VNum x :: rest)))] e
       = (Raise (ValueError (CouldNotAdd name BadLength)), e).
Proof.
  intros Hn Hv. split.
  - unfold lshift, set. rewrite call_kw_self_single by assumption.
    cbv [dict_keys map fst].
    rewrite (bind_run _ _ _ _ _ (check_valid_single _ _ Hv)). reflexivity.
  - intros x rest Hlen. unfold lshift, set.
    rewrite call_kw_self_single by assumption. cbv [dict_keys map fst].
    rewrite (bind_run _ _ _ _ _ (check_valid_single _ _ Hv)).
    cbv [forM_ snd fst]. unfold bind at 1. unfold except_ValueError.
    assert (Hset : set_one sympy fuel name (Val (VSeq (VNum x :: rest))) e
                   = (Raise (ValueError BadLength), e)).
    { unfold set_one. apply bind_raise. unfold get_quantity. apply bind_raise.
      destruct rest as [|y [|z rest]]; [reflexivity | simpl in Hlen; lia | reflexivity]. }
    rewrite Hset. reflexivity.
Qed.

(** ** Propagation keeps what was asked *)

Lemma dict_in_set {A} k k' (v : A) d :
  dict_in k d = true -> dict_in k (dict_set k' v d) = true.
Proof.
  rewrite !dict_in_keys, dict_keys_set.
  destruct (dict_in k' d); [auto|]. intros H. apply in_or_app. now left.
Qed.

Lemma dict_in_update {A} k (new d : dict A) :
  dict_in k d = true -> dict_in k (dict_update d new) = true.
Proof.
  unfold dict_update. revert d.
  induction new as [|[k' v] new IH]; intros d H; [exact H|].
  cbn [fold_left]. apply IH. now apply dict_in_set.
Qed.

Lemma normalize_step_keeps_keys sympy fuel restrict kwargs item e kwargs' e' k :
  normalize_step sympy fuel restrict kwargs item e = (Ok kwargs', e') ->
  dict_in k kwargs = true -> dict_in k kwargs' = true.
Proof.
  unfold normalize_step. intros H Hk.
  destruct (mem item.1 restrict); [|injection H as <- _; exact Hk].
  destruct item.2 as [[x|s|u|q|l]|f|f u]; try (injection H as <- _; exact Hk).
  - bind_inv H as g e1 H1. bind_inv H as v e2 H2.
    injection H as <- _. now apply dict_in_set.
  - bind_inv H as v e2 H2. injection H as <- _. now apply dict_in_set.
Qed.

(** X24: propagation drops no override: every name of the override set it
    is given is a name of the set it returns, on every pass; derived values
    are added to the set or replace the value of a name. *)
Theorem propagation_keeps_requested_overrides sympy py_ne fuel :
  forall kwargs restrict e kwargs' e' k,
    process_override sympy py_ne fuel kwargs restrict e = (Ok kwargs', e') ->
    dict_in k kwargs = true -> dict_in k kwargs' = true.
Proof.
  induction fuel as [|n IH]; intros kwargs restrict e kwargs' e' k H Hk;
    [discriminate|].
  rewrite process_override_S in H. cbv zeta in H.
  destruct (match restrict with Some r => r | None => dict_keys kwargs end) as [|r0 rs];
    [injection H as <- _; exact Hk|].
  bind_inv H as kwargs1 e1 H1. bind_inv H as new e2 H2.
  apply (IH _ _ _ _ _ k H). apply dict_in_update.
  revert H1. apply (foldM_invariant (fun s => dict_in k s = true)); [|exact Hk].
  intros s a e0 s' e0' Hs Hstep. eapply normalize_step_keeps_keys; eassumption.
Qed.

(** ** Symbolic expressions *)

(** X25: a string that is not the name of a stored parameter is evaluated as
    a symbolic expression; when its first free symbol reads as a quantity,
    which the unit-aware view of a stored quantity does, the retrieval raises
    the [ValueError] that asks for scaled parameters, and changes nothing. *)
Theorem symbolic_expression_needs_scaled_values sympy py_ne n expr sym rest q e :
  parameters e !! get_pam_name expr = None ->
  sympy_free_symbols sympy expr = Some (sym :: rest) ->
  (sym :: rest) <> [sympy_str sympy expr] ->
  parameters e !! get_pam_name sym = Some (SQuantity q) ->
  (if is_prefixed sym then negb (default_scaled e) else default_scaled e) = false ->
  get sympy py_ne (S (S (S n))) [expr] [] e = (Raise (ValueError OnlyScaled), e).
Proof.
  intros Hexpr Hsym Hne Hq Hview.
  cbv [get call_kw existsb dict_in dict_get orb].
  rewrite (bind_run _ _ _ _ _ (process_override_nil _ _ _ _)).
  cbv [get_params call_kw existsb dict_in dict_get orb].
  erewrite bind_raise; [reflexivity|].
  cbn [get_param]. rewrite call_kw_free by reflexivity.
  unfold bind at 1. cbv [self]. rewrite Hexpr.
  change (@dict_in pyval (get_pam_name expr) []) with false.
  rewrite bool_decide_eq_false_2 by (intros [? ?]; discriminate).
  cbn [negb andb eval_str]. rewrite call_kw_free by reflexivity.
  rewrite Hsym, bool_decide_eq_false_2 by exact Hne.
  assert (Hloop : forall (k : dict value -> M pyval),
            bind (foldM (fun params s =>
                     param <- get_param sympy (S n) s [] ;;
                     match param with
                     | Val (VQuantity _) => raise (ValueError OnlyScaled)
                     | _ =>
                         v <- get_param sympy (S n) s [] ;;
                         match v with
                         | Val d => ret (dict_set s d params)
                         | _ => raise TypeError
                         end
                     end) [] (sym :: rest)) k e
            = (Raise (ValueError OnlyScaled), e)).
  { intros k. apply bind_raise, foldM_raise_first.
    unfold bind at 1. rewrite (get_param_stored sympy n sym q e Hq), Hview.
    rewrite get_quantity_unit_aware. reflexivity. }
  rewrite Hloop. reflexivity.
Qed.

(** ** A unit scaling of zero *)

(** X26: a unit scaling of zero is accepted; when it is the first entry for
    its dimension vector, the scaling factor of every unit of that vector can
    no longer be computed: asking for it, and reading the scaled value of a
    quantity in such a unit, raise [ZeroDivisionError]. *)
Theorem zero_unit_scaling_breaks_reads u e s :
  no_unit_scaling (udims u) e ->
  (unit_scaling_direct u e).1 = Ok s ->
  let e' := (mul (UnitScaling (udims u) 0) e).2 in
  (mul (UnitScaling (udims u) 0) e).1 = Ok tt
  /\ unit_scaling u e' = (Raise ZeroDivisionError, e')
  /\ forall q param, qunits q = u ->
       get_quantity (Val (VQuantity q)) param None true e'
       = (Raise ZeroDivisionError, e').
Proof.
  intros Hno Hs. cbv zeta.
  set (e' := (mul (UnitScaling (udims u) 0) e).2).
  assert (He' : e' = set_unit_scalings (unit_scalings e ++ [(udims u, 0)])
                       (set_scaling_cache [] e)) by reflexivity.
  assert (Hdirect : unit_scaling_direct u e' = (Raise ZeroDivisionError, e')).
  { unfold unit_scaling_direct in *. unfold bind at 1 in Hs. unfold bind at 1.
    pose proof (basis_scale_same (VUnit u) e e') as Hb.
    pose proof (pure_basis_scale (VUnit u) e) as Hp.
    pose proof (pure_basis_scale (VUnit u) e') as Hp'.
    destruct (basis_scale (VUnit u) e) as [[scale|x] e1]; simpl in Hp; subst e1;
      [|discriminate].
    destruct (basis_scale (VUnit u) e') as [[scale'|x'] e1']; simpl in Hp'; subst e1';
      rewrite He' in Hb; specialize (Hb eq_refl eq_refl); simpl in Hb;
      [|discriminate].
    unfold unit_scale, bind, self, ret. simpl.
    rewrite (unit_scale_in_app_unmatched _ _ _ _ Hno), decide_True by reflexivity.
    unfold py_div. now rewrite decide_True by reflexivity. }
  assert (Hscaling : unit_scaling u e' = (Raise ZeroDivisionError, e')).
  { rewrite unit_scaling_run. rewrite He' at 1. simpl. now rewrite Hdirect. }
  split; [reflexivity|]. split; [exact Hscaling|].
  intros q param Hq. subst u. unfold get_quantity. simpl.
  unfold bind at 1. unfold ret at 1. now rewrite (bind_raise _ _ _ _ _ Hscaling).
Qed.

(** ** Updates and removals composed *)

Lemma stored_as_twice x q1 q2 e :
  stored_as x q2 (stored_as x q1 e) = stored_as x q2 e.
Proof. unfold stored_as. simpl. now rewrite !insert_insert_eq. Qed.

Lemma stored_as_commute x y qx qy e :
  x <> y ->
  stored_as y qy (stored_as x qx e) = stored_as x qx (stored_as y qy e).
Proof.
  intros Hne. unfold stored_as. simpl.
  now rewrite (insert_insert_ne _ y x), (insert_insert_ne _ y x) by congruence.
Qed.

Lemma stored_as_not_function x q e p :
  (forall f, parameters e !! p <> Some (SFun f)) ->
  forall f, parameters (stored_as x q e) !! p <> Some (SFun f).
Proof.
  intros Hf f. simpl. destruct (decide (p = x)) as [->|Hne].
  - rewrite lookup_insert_eq. discriminate.
  - rewrite lookup_insert_ne by congruence. apply Hf.
Qed.

(** X27: updating a name that is neither stored nor declared and then
    removing it gives back the state the update started from. *)
Theorem remove_undoes_fresh_update sympy py_ne n x v un u e :
  x <> "self" -> is_valid_param x = true ->
  units_get (units e) un = Some u ->
  parameters e !! x = None -> parameters_spec e !! x = None ->
  sub (VStr x)
    (update sympy py_ne (S (S n)) [(x, Val (VSeq [VNum v; VStr un]))] e).2
  = (Ok tt, e).
Proof.
  intros Hn Hv Hu Hp Hs.
  rewrite (update_pair_run sympy py_ne n x v un u e Hn Hv Hu)
    by (intros f; rewrite Hp; discriminate).
  unfold sub. rewrite remove_run. cbn [snd]. f_equal.
  unfold stored_as, set_parameters_spec, set_parameters. simpl.
  rewrite !delete_insert_id by assumption. apply engine_eta.
Qed.

(** X28: of two updates of the same name with (magnitude, unit) pairs, the
    second alone decides the state, and two such updates of different names
    give the same state in either order. *)
Theorem updates_compose sympy py_ne n x y v1 un1 u1 v2 un2 u2 e :
  x <> "self" -> y <> "self" ->
  is_valid_param x = true -> is_valid_param y = true ->
  units_get (units e) un1 = Some u1 -> units_get (units e) un2 = Some u2 ->
  (forall f, parameters e !! x <> Some (SFun f)) ->
  (forall f, parameters e !! y <> Some (SFun f)) ->
  let put name v un :=
    update sympy py_ne (S (S n)) [(name, Val (VSeq [VNum v; VStr un]))] in
  put x v2 un2 (put x v1 un1 e).2 = put x v2 un2 e
  /\ (x <> y -> put y v2 un2 (put x v1 un1 e).2 = put x v1 un1 (put y v2 un2 e).2).
Proof.
  intros Hx Hy Hvx Hvy Hu1 Hu2 Hfx Hfy. cbv beta zeta.
  rewrite (update_pair_run sympy py_ne n x v1 un1 u1 e Hx Hvx Hu1 Hfx).
  rewrite (update_pair_run sympy py_ne n x v2 un2 u2 e Hx Hvx Hu2 Hfx).
  rewrite (update_pair_run sympy py_ne n y v2 un2 u2 e Hy Hvy Hu2 Hfy).
  cbn [snd]. split.
  - rewrite (update_pair_run sympy py_ne n x v2 un2 u2
               (stored_as x (mkQuantity v1 u1) e) Hx Hvx Hu2)
      by (now apply stored_as_not_function).
    now rewrite stored_as_twice.
  - intros Hne.
    rewrite (update_pair_run sympy py_ne n y v2 un2 u2
               (stored_as x (mkQuantity v1 u1) e) Hy Hvy Hu2)
      by (now apply stored_as_not_function).
    rewrite (update_pair_run sympy py_ne n x v1 un1 u1
               (stored_as y (mkQuantity v2 u2) e) Hx Hvx Hu1)
      by (now apply stored_as_not_function).
    now rewrite stored_as_commute.
Qed.

(** * Instances on the small dispenser *)

(** Removing [x], which is stored, and [y], which is not. *)
Lemma remove_absent_example :
  parameters Instances.x_stored !! "x" = Some (SQuantity (mkQuantity 1 Fixture.ms))
  /\ parameters (sub (VStr "x") Instances.x_stored).2 !! "x" = None
  /\ (sub (VStr "y") Instances.x_stored).2 = Instances.x_stored.
Proof.
  split; [vm_compute; reflexivity|]. split.
  - exact (proj1 (proj2 (remove_never_fails_and_is_idempotent "x" Instances.x_stored))).
  - refine (proj1 (proj2 (proj2 (proj2 (proj2 (proj2
             (remove_never_fails_and_is_idempotent "y" Instances.x_stored))))))
             _ _); vm_compute; reflexivity.
Defined.

(** The unit [ms] declared for [y] is replaced by the dimensionless unit when
    [y] is assigned a bare function. *)
Lemma function_assignment_example :
  parameters_spec Instances.y_in_ms !! "y" = Some Fixture.ms
  /\ exists u, units_get Fixture.SI "" = Some u
       /\ parameters_spec
            (lshift Fixture.no_sympy Fixture.depth [("y", Fun Instances.square)]
                    Instances.y_in_ms).2 !! "y" = Some u.
Proof.
  split; [vm_compute; reflexivity|].
  refine (proj2 (function_assignment_sets_unit_spec Fixture.no_sympy Fixture.depth
                   "y" (Fun Instances.square) Instances.y_in_ms _ _)).
  vm_compute. reflexivity.
Defined.


(** The length scenario on the small dispenser. *)
Lemma length_scaling_example :
  (get Fixture.no_sympy Fixture.structural_ne 1 ["x"] []
     (update Fixture.no_sympy Fixture.structural_ne 2
        [("x", Val (VSeq [VNum 1; VStr "m"]))]
        (mul (Dimensions [("length", Val (VSeq [VNum 2; VStr "m"]))])
             (init Fixture.SI true)).2).2).1
  = Ok (inl (Val (VNum (1 / 2)))).
Proof.
  refine (proj1 (proj2 (proj2
            (length_scaling_scenario Fixture.no_sympy Fixture.structural_ne
               Fixture.SI Fixture.m Fixture.m _ _ _ _ _ 0)))).
  - reflexivity.
  - reflexivity.
  - intros H. apply (f_equal this) in H. discriminate H.
  - reflexivity.
  - vm_compute. reflexivity.
Defined.

(** [a] defined from [b], then [b] from [a]. *)
Lemma direct_cycle_example :
  exists x,
    lshift Fixture.no_sympy Fixture.depth [("b", Fun Cycle.b_of_a)] Cycle.with_a
    = (Raise x, Cycle.with_a).
Proof.
  refine (proj1 cycle_check_ignores_prefixed_arguments Fixture.no_sympy
            Fixture.depth Cycle.with_a "a" "b" Cycle.a_of_b Cycle.b_of_a _ _ _ _).
  - vm_compute. reflexivity.
  - left. reflexivity.
  - left. reflexivity.
  - discriminate.
Defined.


(** An update with an invalid name, one whose propagation fails, one that
    goes through, and one in which the second entry is malformed. *)
Lemma durable_update_example :
  (exists x,
     update Fixture.no_sympy Fixture.structural_ne Fixture.depth
       [("1x", Fixture.num 1)] Instances.x_stored = (Raise x, Instances.x_stored))
  /\ (exists y,
        (update Fixture.no_sympy Fixture.structural_ne Fixture.depth
           [("z", Fixture.num 1)] Chain.store).1 = Raise y
        /\ tables (update Fixture.no_sympy Fixture.structural_ne Fixture.depth
                     [("z", Fixture.num 1)] Chain.store).2
           = tables Chain.store)
  /\ (exists ei ei',
        agree_on "y" Instances.x_stored ei
        /\ set Fixture.no_sympy Fixture.depth [("y", Fixture.pair 2 "m")] ei
           = (Ok tt, ei')
        /\ agree_on "y" ei'
             (update Fixture.no_sympy Fixture.structural_ne Fixture.depth
                [("y", Fixture.pair 2 "m")] Instances.x_stored).2)
  /\ (update Fixture.no_sympy Fixture.structural_ne Fixture.depth
        Partial.a_then_b (init Fixture.SI true)).1
     = Raise (ValueError (CouldNotAdd "b" BadLength)).
Proof.
  split; [|split; [|split]].
  - refine (proj1 (durable_update_outcomes Fixture.no_sympy Fixture.structural_ne
                     Fixture.depth [("1x", Fixture.num 1)] Instances.x_stored) _).
    exists "1x". split; [left; reflexivity | reflexivity].
  - refine (proj1 (proj2 (durable_update_outcomes Fixture.no_sympy
                            Fixture.structural_ne Fixture.depth
                            [("z", Fixture.num 1)] Chain.store))
                  (ValueError (Overspecified "x"))
                  (process_override Fixture.no_sympy Fixture.structural_ne
                     Fixture.depth [("z", Fixture.num 1)] None Chain.store).2 _).
    vm_compute. reflexivity.
  - destruct (proj1 (proj2 (proj2 (durable_update_outcomes Fixture.no_sympy
                              Fixture.structural_ne Fixture.depth
                              [("y", Fixture.pair 2 "m")] Instances.x_stored)))
                _ ltac:(repeat constructor; intros H; inversion H)
                ltac:(vm_compute; reflexivity))
      as (kwargs' & e1 & Hp & _ & Happ).
    apply (Happ "y" (Fixture.pair 2 "m")).
    + assert (Hk : process_override Fixture.no_sympy Fixture.structural_ne
                     Fixture.depth [("y", Fixture.pair 2 "m")] None Instances.x_stored
                   = (Ok [("y", Fixture.pair 2 "m")], Instances.x_stored))
        by (vm_compute; reflexivity).
      rewrite Hk in Hp. injection Hp as <- _. left. reflexivity.
    + intros f. vm_compute. discriminate.
  - pose (fresh := init Fixture.SI true).
    pose (e2 := (update_step Fixture.no_sympy Fixture.depth
                   ("a", Fixture.num 1) fresh).2).
    pose (e3 := (update_step Fixture.no_sympy Fixture.depth
                   ("b", Partial.malformed) e2).2).
    destruct (proj2 (proj2 (proj2 (durable_update_outcomes Fixture.no_sympy
                Fixture.structural_ne Fixture.depth Partial.a_then_b fresh)))
                Partial.a_then_b fresh [("a", Fixture.num 1)]
                ("b", Partial.malformed) [] e2
                (ValueError (CouldNotAdd "b" BadLength)) e3) as [Hraise _].
    + repeat constructor; intros H; inversion H; subst;
        repeat match goal with
               | H : _ ∈ _ |- _ => inversion H; clear H; subst
               end.
    + reflexivity.
    + intros p [<- | [<- | []]]; reflexivity.
    + vm_compute. reflexivity.
    + reflexivity.
    + vm_compute. reflexivity.
    + vm_compute. reflexivity.
    + fold fresh. rewrite Hraise. reflexivity.
Defined.

(** The inversion of [z] in the documented form, read at [y]. *)
Lemma inverse_evaluation_example :
  exists vals x q,
    (eval_function Fixture.no_sympy Fixture.depth "z"
       [("z", Fixture.num (Qc_of_Z 5))] Inverse.store_target_last).1 = Ok vals
    /\ tagged Inverse.store_target_last "y" x q
    /\ dict_get "y" vals = Some q.
Proof.
  pose (run := eval_function Fixture.no_sympy Fixture.depth "z"
                 [("z", Fixture.num (Qc_of_Z 5))] Inverse.store_target_last).
  pose (vals := match run.1 with Ok v => v | Raise _ => [] end).
  assert (Hrun : eval_function Fixture.no_sympy (S 49) "z"
                   [("z", Fixture.num (Qc_of_Z 5))] Inverse.store_target_last
                 = (Ok vals, run.2)) by (vm_compute; reflexivity).
  destruct (inverse_evaluation_by_position Fixture.no_sympy 49 "z"
              Inverse.target_last [("z", Fixture.num (Qc_of_Z 5))]
              Inverse.store_target_last vals run.2 ["x"; "y"] "z")
    as (arguments & rv & e1 & _ & _ & Hpos).
  - vm_compute. reflexivity.
  - reflexivity.
  - repeat constructor; intros H; inversion H; subst;
      repeat match goal with
             | H : _ ∈ _ |- _ => inversion H; clear H; subst
             end.
  - reflexivity.
  - reflexivity.
  - exact Hrun.
  - destruct (Hpos 1%nat "y" eq_refl eq_refl ltac:(discriminate))
      as (x & q & ei & _ & _ & _ & Htag & Hv).
    exists vals, x, q. split; [|split; assumption].
    vm_compute. reflexivity.
Defined.

(** ** Instances of the further properties *)

(** The two invalid names of a request of three, in the order given. *)
Lemma invalid_names_example :
  lshift Fixture.no_sympy Fixture.depth Further.bad_names (init Fixture.SI true)
  = (Raise (KeyError (InvalidParameters ["1x"; "a-b"])), init Fixture.SI true).
Proof.
  refine (proj1 (invalid_names_rejected_together Fixture.no_sympy
                   Fixture.structural_ne Fixture.depth Further.bad_names
                   (init Fixture.SI true) ["1x"; "a-b"] _ _ _)).
  - reflexivity.
  - vm_compute. reflexivity.
  - discriminate.
Defined.

(** Reading [x] under an override leaves the tables of the store alone. *)
Lemma retrieval_example :
  tables (call_ Fixture.no_sympy Fixture.structural_ne Fixture.depth ["x"]
            [("x", Fixture.pair 2 "m")] Instances.x_stored).2
  = tables Instances.x_stored.
Proof.
  refine (proj1 (retrieval_keeps_tables Fixture.no_sympy Fixture.structural_ne
                   Fixture.depth ["x"] [("x", Fixture.pair 2 "m")] "x"
                   Instances.x_stored) _).
  discriminate.
Defined.

(** The scaling of [ms], asked twice on a fresh engine. *)
Lemma unit_scaling_example :
  let r := unit_scaling Fixture.ms (init Fixture.SI true) in
  let s := match r.1 with Ok s => s | Raise _ => 0 end in
  unit_scaling Fixture.ms r.2 = (Ok s, r.2).
Proof.
  cbv zeta.
  refine (proj1 (proj1 (unit_scaling_repeatable Fixture.ms (init Fixture.SI true))
                   _ _ _)).
  vm_compute. reflexivity.
Defined.

(** A unit scaling for lengths on a fresh engine becomes the factor of [m]. *)
Lemma unit_scaling_first_match_example :
  (unit_scale Fixture.m
     (mul (UnitScaling {[ "length" := 1%Z ]} 2) (init Fixture.SI true)).2).1
  = Ok (if decide (({[ "length" := 1%Z ]} : gmap string Z) = udims Fixture.m)
        then 2 else 1).
Proof.
  pose proof (unit_scaling_first_match_wins {[ "length" := 1%Z ]} 2 Fixture.m
                (init Fixture.SI true)) as (_ & _ & _ & H).
  refine (proj2 (H _)). constructor.
Defined.


(** The basis of lengths set to two metres on a fresh engine. *)
Lemma basis_scaling_example :
  well_dimensioned
    (mul (Dimensions [("length", Fixture.pair 2 "m")]) (init Fixture.SI true)).2.
Proof.
  refine (proj2 (scaling_set_keeps_basis_well_dimensioned
                   (Dimensions [("length", Fixture.pair 2 "m")])
                   (init Fixture.SI true)) _).
  intros dim q H. simpl in H. rewrite lookup_empty in H. discriminate H.
Defined.

(** The check of [b] as a function of [a], with [a] held by a function of
    [b]. *)
Lemma cycle_check_example :
  check_function Fixture.depth "b" Cycle.b_of_a None Cycle.with_a
  = (Ok Cycle.b_of_a, Cycle.with_a)
  \/ exists a, check_function Fixture.depth "b" Cycle.b_of_a None Cycle.with_a
               = (Raise (ValueError (RecursionWith a)), Cycle.with_a).
Proof.
  refine (cycle_check_gives_a_verdict Fixture.depth "b" Cycle.b_of_a Cycle.with_a _).
  assert (H : size (held_by_function Cycle.with_a) = 1%nat) by (vm_compute; reflexivity).
  rewrite H. unfold Fixture.depth. lia.
Defined.



(** [x], stored as one millisecond, read under the override of two metres. *)
Lemma temporary_override_example :
  get Fixture.no_sympy Fixture.structural_ne 2
    [if default_scaled Instances.x_stored then "_" ++ "x" else "x"]
    [("x", Fixture.pair 2 "m")] Instances.x_stored
  = (Ok (inl (Fixture.quantity 2 Fixture.m)), Instances.x_stored).
Proof.
  refine (temporary_override_shadows Fixture.no_sympy Fixture.structural_ne 0 "x" 2
            "m" Fixture.m [("x", Fixture.pair 2 "m")] Instances.x_stored _ _ _ _ _).
  - reflexivity.
  - constructor; [|constructor].
    split; [exact I | intros f H; vm_compute in H; discriminate H].
  - reflexivity.
  - reflexivity.
  - vm_compute. reflexivity.
Defined.

(** [p('x', arg=1)] *)
Lemma override_named_arg_example :
  get Fixture.no_sympy Fixture.structural_ne 2 ["x"] [("arg", Fixture.num 1)]
    Instances.x_stored
  = (Raise TypeError, Instances.x_stored).
Proof.
  refine (proj1 (override_named_arg_refused Fixture.no_sympy Fixture.structural_ne 0
                   "x" [] [("arg", Fixture.num 1)] Instances.x_stored _ _ _)).
  - constructor; [|constructor].
    split; [exact I | intros f H; vm_compute in H; discriminate H].
  - reflexivity.
  - reflexivity.
Defined.

(** [y] is the square of [x]; [p('x', y=1)] and [p(y=1)]. *)
Lemma non_invertible_example :
  get Fixture.no_sympy Fixture.structural_ne 2 ["x"] [("y", Fixture.num 1)]
    Further.y_squares_x
  = (Raise (ValueError (NonInvertible "y")), Further.y_squares_x)
  /\ update Fixture.no_sympy Fixture.structural_ne 2 [("y", Fixture.num 1)]
       Further.y_squares_x
     = (Raise (ValueError (NonInvertible "y")), Further.y_squares_x).
Proof.
  refine (non_invertible_override_refused Fixture.no_sympy Fixture.structural_ne 0
            "y" Instances.square (Fixture.num 1) ["x"] Further.y_squares_x
            _ _ _ _ _ _ _).
  - vm_compute. reflexivity.
  - discriminate.
  - discriminate.
  - reflexivity.
  - reflexivity.
  - reflexivity.
  - exact I.
Defined.


(** [x] removed, then read. *)
Lemma removed_name_example :
  get Further.symbols_only Fixture.structural_ne 2 ["x"] []
    (sub (VStr "x") Instances.x_stored).2
  = (Raise (ValueError (NoInterpretation "x")), (sub (VStr "x") Instances.x_stored).2).
Proof.
  refine (removed_name_has_no_interpretation Further.symbols_only
            Fixture.structural_ne 0 "x" Instances.x_stored _ _); reflexivity.
Defined.

(** [y] is still the square of [x] after [x] is updated. *)
Lemma update_keeps_function_example :
  parameters (update Fixture.no_sympy Fixture.structural_ne Fixture.depth
                [("x", Fixture.pair 2 "ms")] Further.y_squares_x).2 !! "y"
  = Some (SFun Instances.square).
Proof.
  refine (proj1 (update_keeps_function_definitions Fixture.no_sympy
                   Fixture.structural_ne Fixture.depth [("x", Fixture.pair 2 "ms")]
                   Further.y_squares_x "y" Instances.square _)).
  vm_compute. reflexivity.
Defined.

(** [p << {'y': (lambda x: x*x, 1)}]: a number is no unit. *)
Lemma function_stored_example :
  lshift Fixture.no_sympy 1 [("y", FunUnit Instances.square (VNum 1))]
    Instances.x_stored
  = (Raise (ValueError (CouldNotAdd "y" NoCoercion)),
     set_parameters (<["y" := SFun Instances.square]> (parameters Instances.x_stored))
       Instances.x_stored).
Proof.
  refine (function_stored_before_unit_fails Fixture.no_sympy 0 "y" Instances.square
            (VNum 1) NoCoercion Instances.x_stored _ _ _ _).
  - discriminate.
  - reflexivity.
  - intros a g [<- | []] _ H. vm_compute in H. discriminate H.
  - reflexivity.
Defined.

(** [p('x', '_x')] on the store that holds [x]. *)
Lemma both_views_example :
  let r := unit_scaling Fixture.ms Instances.x_stored in
  let s := match r.1 with Ok s => s | Raise _ => 0 end in
  get Fixture.no_sympy Fixture.structural_ne 1 ["x"; "_" ++ "x"] [] Instances.x_stored
  = (Ok (inr [("x", if default_scaled Instances.x_stored
                    then Val (VQuantity (mkQuantity 1 Fixture.ms))
                    else Val (VNum (1 / s)))]), r.2).
Proof.
  cbv zeta.
  refine (both_views_share_a_key Fixture.no_sympy Fixture.structural_ne 0 "x"
            (mkQuantity 1 Fixture.ms) _ Instances.x_stored _ _ _ _ _).
  - reflexivity.
  - vm_compute. reflexivity.
  - vm_compute. reflexivity.
  - intros H. apply (f_equal this) in H. vm_compute in H. discriminate H.
Defined.

(** [p(a=(1,'m'), b=(2,'s'))] on a fresh engine. *)
Lemma update_of_pairs_example :
  update Fixture.no_sympy Fixture.structural_ne 2 (request_pairs Further.two_pairs)
    (init Fixture.SI true)
  = (Ok tt, store_pairs Fixture.SI Further.two_pairs (init Fixture.SI true)).
Proof.
  refine (proj1 (update_of_pairs Fixture.no_sympy Fixture.structural_ne 0
                   Further.two_pairs (init Fixture.SI true) _)).
  repeat constructor; try discriminate; try (eexists; reflexivity);
    intros f H; simpl in H; rewrite lookup_empty in H; discriminate H.
Defined.

(** [p << {'y': lambda x: x*x}] on the store that holds [x]. *)
Lemma function_accepted_example :
  lshift Fixture.no_sympy 1 [("y", Fun Instances.square)] Instances.x_stored
  = (Ok tt,
     set_parameters_spec (<["y" := Fixture.constant]> (parameters_spec Instances.x_stored))
       (set_parameters (<["y" := SFun Instances.square]> (parameters Instances.x_stored))
          Instances.x_stored)).
Proof.
  refine (function_of_plain_parameters_accepted Fixture.no_sympy 0 "y"
            Instances.square Fixture.constant Instances.x_stored _ _ _ _).
  - discriminate.
  - reflexivity.
  - intros a g [<- | []] _ H. vm_compute in H. discriminate H.
  - reflexivity.
Defined.

(** [y] is twice [_x], and [x] is one millisecond. *)
Lemma function_parameter_example :
  get Fixture.no_sympy Fixture.structural_ne 3
    [if default_scaled Further.y_follows_x then "_" ++ "y" else "y"] []
    Further.y_follows_x
  = (Ok (inl (Val (VQuantity (mkQuantity (2 * 1) Fixture.ms)))), Further.y_follows_x).
Proof.
  refine (function_parameter_follows_arguments Fixture.no_sympy Fixture.structural_ne
            0 "y" Further.double_aware [mkQuantity 1 Fixture.ms]
            (VQuantity (mkQuantity (2 * 1) Fixture.ms)) (mkQuantity (2 * 1) Fixture.ms)
            Further.y_follows_x _ _ _ _ _).
  - vm_compute. reflexivity.
  - reflexivity.
  - constructor; [split; vm_compute; reflexivity | constructor].
  - reflexivity.
  - reflexivity.
Defined.


(** [p << {'x': ()}] *)
Lemma malformed_value_example :
  lshift Fixture.no_sympy Fixture.depth [("x", Val (VSeq []))] (init Fixture.SI true)
  = (Raise IndexError, init Fixture.SI true).
Proof.
  refine (proj1 (malformed_values_refused Fixture.no_sympy Fixture.depth "x"
                   (init Fixture.SI true) _ _)).
  - discriminate.
  - reflexivity.
Defined.

(** The override [z = 5] is still in the set after [x] and [y] are derived. *)
Lemma propagation_keeps_example :
  match (process_override Fixture.no_sympy Fixture.structural_ne Fixture.depth
           [("z", Fixture.num (Qc_of_Z 5))] None Inverse.store_target_last).1 with
  | Ok kwargs' => dict_in "z" kwargs' = true /\ dict_in "x" kwargs' = true
  | Raise _ => False
  end.
Proof.
  destruct (process_override Fixture.no_sympy Fixture.structural_ne Fixture.depth
              [("z", Fixture.num (Qc_of_Z 5))] None Inverse.store_target_last)
    as [[kwargs'|x] e'] eqn:E.
  - split.
    + exact (propagation_keeps_requested_overrides Fixture.no_sympy
               Fixture.structural_ne Fixture.depth _ _ _ _ _ "z" E eq_refl).
    + vm_compute in E. injection E as <- _. reflexivity.
  - vm_compute in E. discriminate E.
Defined.

(** [p('2*_x')] on the store that holds [x]. *)
Lemma symbolic_expression_example :
  get Further.doubling Fixture.structural_ne 3 ["2*_x"] [] Instances.x_stored
  = (Raise (ValueError OnlyScaled), Instances.x_stored).
Proof.
  refine (symbolic_expression_needs_scaled_values Further.doubling
            Fixture.structural_ne 0 "2*_x" "_x" [] (mkQuantity 1 Fixture.ms)
            Instances.x_stored _ _ _ _ _).
  - vm_compute. reflexivity.
  - reflexivity.
  - discriminate.
  - vm_compute. reflexivity.
  - vm_compute. reflexivity.
Defined.

(** A unit scaling of zero for lengths on a fresh engine. *)
Lemma zero_unit_scaling_example :
  unit_scaling Fixture.m
    (mul (UnitScaling (udims Fixture.m) 0) (init Fixture.SI true)).2
  = (Raise ZeroDivisionError,
     (mul (UnitScaling (udims Fixture.m) 0) (init Fixture.SI true)).2).
Proof.
  refine (proj1 (proj2 (zero_unit_scaling_breaks_reads Fixture.m
                          (init Fixture.SI true) _ _ _))).
  - constructor.
  - vm_compute. reflexivity.
Defined.

(** [p(a=(1,'m'))] followed by [p - 'a'] on a fresh engine. *)
Lemma remove_undoes_example :
  sub (VStr "a")
    (update Fixture.no_sympy Fixture.structural_ne 2 [("a", Fixture.pair 1 "m")]
       (init Fixture.SI true)).2
  = (Ok tt, init Fixture.SI true).
Proof.
  refine (remove_undoes_fresh_update Fixture.no_sympy Fixture.structural_ne 0 "a" 1
            "m" Fixture.m (init Fixture.SI true) _ _ _ _ _);
    first [discriminate | reflexivity].
Defined.

(** [a] set to one metre and then to two seconds. *)
Lemma updates_compose_example :
  update Fixture.no_sympy Fixture.structural_ne 2 [("a", Fixture.pair 2 "s")]
    (update Fixture.no_sympy Fixture.structural_ne 2 [("a", Fixture.pair 1 "m")]
       (init Fixture.SI true)).2
  = update Fixture.no_sympy Fixture.structural_ne 2 [("a", Fixture.pair 2 "s")]
      (init Fixture.SI true).
Proof.
  refine (proj1 (updates_compose Fixture.no_sympy Fixture.structural_ne 0 "a" "b"
                   1 "m" Fixture.m 2 "s" Fixture.s (init Fixture.SI true)
                   _ _ _ _ _ _ _ _));
    first [discriminate | reflexivity
          | intros f H; simpl in H; rewrite lookup_empty in H; discriminate H].
Defined.
